(** * pyrpl network analyzer: a shallow embedding of [network_analyzer.py]

    The class [NetworkAnalyzer] drives a frequency sweep on top of an IQ
    demodulator.  Python floats are idealised as rationals ([Q]); the
    logarithmic axis, which needs [log10] and powers of ten, is studied
    over the reals.  The range of the floats is kept where the code turns
    a float into an integer or raises 2.0 to a power, the places where
    leaving the range raises an exception.  Methods become computations in
    a state-and-exception monad: a Python exception leaves the effects
    made before it in place. *)

From Stdlib Require Import Reals Qreals Lra.
From Stdlib Require Import ZArith QArith Qabs Qround Qpower List String Bool Lia.
From Stdlib Require Import Sorted.
Import ListNotations.

Local Open Scope Q_scope.

(** ** Exceptions and the monad *)

Inductive exn : Type :=
| AttributeError (name : string)
| NameError (name : string)
| IndexError
| ZeroDivisionError
| ValueError
| OverflowError
| NotReadyError.

Inductive result (A : Type) : Type :=
| Ok (a : A)
| Err (e : exn).
Arguments Ok {A} a.
Arguments Err {A} e.

(** A complex number, as its real and imaginary parts. *)
Definition Cplx : Type := (Q * Q)%type.

Definition cscale (k : Q) (z : Cplx) : Cplx := (fst z * k, snd z * k).
Definition cdiv (z : Cplx) (k : Q) : Cplx := (fst z / k, snd z / k).
Definition ceq (z w : Cplx) : Prop := fst z == fst w /\ snd z == snd w.

(** [a > b] on floats, as the boolean Python computes. *)
Definition Qgtb (a b : Q) : bool := negb (Qle_bool a b).

(** ** numpy's [linspace] and [logspace]

    [linspace start stop num] (with [endpoint=True]) returns [num] samples:
    [arange(0, num) * step + start] with [step = (stop - start) / (num - 1)],
    whose last sample is then overwritten with [stop] when [num > 1].
    [logspace a b num] is [10 ** linspace a b num].  Both are written over an
    arbitrary carrier, so the same text serves the rationals and the reals. *)
Section Axis.
Context {A : Type}.
Variables (add sub mul div : A -> A -> A) (of_nat : nat -> A).
Variables (lg pw : A -> A).

Definition linspace (start stop : A) (num : nat) : list A :=
  match num with
  | O => []
  | S O => [start]
  | S (S _ as d) =>
      let step := div (sub stop start) (of_nat d) in
      map (fun i => add (mul (of_nat i) step) start) (seq 0 d) ++ [stop]
  end.

Definition logspace (a b : A) (num : nat) : list A :=
  map pw (linspace a b num).

(** Lines 136-143 of [setup]. *)
Definition frequency_axis (logscale : bool) (start stop : A) (points : nat)
  : list A :=
  if logscale then logspace (lg start) (lg stop) points
  else linspace start stop points.
End Axis.

(** ** The demodulator (IQ module) *)

Inductive iq_event : Type :=
| SetFrequency (f : Q)
| SetBandwidth (l : list Q)
| SetAmplitude (a : Q)
| IqSetup (frequency : Q) (bandwidth : Q) (gain phase : Q) (acbandwidth : Q)
          (amplitude : Q) (input output_direct output_signal : string)
| SetNaAverages (n : Z)
| LogInfo (msg : string).

(** Modelled from the spec: the IQ module of [redpitaya_modules], which is
    not part of the sources.  It is a bank of registers; a write stores the
    value the hardware accepts (section 6: requested versus
    hardware-quantized values) and is recorded in [iq_trace]. *)
Record IQ : Type := mkIQ {
  iq_frequency : Q;
  iq_bandwidth : list Q;
  iq_amplitude : Q;
  iq_gain : Q;
  iq_phase : Q;
  iq_acbandwidth : Q;
  iq_input : string;
  iq_output_direct : string;
  iq_output_signal : string;
  iq_na_averages : option Z;
  iq_trace : list iq_event
}.

(** Modelled from the spec: what the hardware does with a requested value
    (it "quantizes to a discrete set"), its fixed-point scale constant
    [_LPFBITS], and the raw sample [_nadata] it reports at a given time. *)
Class Demodulator : Type := {
  quant_frequency : Q -> Q;
  quant_bandwidth : Q -> Q;
  quant_amplitude : Q -> Q;
  _LPFBITS : Z;
  _nadata : IQ -> Q -> Cplx
}.

(** numpy's [log10], [10 ** _] and [abs] (the modulus) on floats, and the
    largest finite float ([sys.float_info.max]). *)
Class FloatLib : Type := {
  log10 : Q -> Q;
  pow10 : Q -> Q;
  np_abs : Cplx -> Q;
  float_max : Q
}.

(** The value of a float expression: a number in the range of the
    floats, an infinity, or [nan]. *)
Inductive np_float : Type :=
| Finite (v : Q)
| Infinite
| NaN.

(** ** The analyzer object *)

(** The [rbw] argument: a number, or a list for a second-order filter. *)
Inductive rbw_arg : Type :=
| RbwScalar (v : Q)
| RbwList (l : list Q).

Record NA : Type := mkNA {
  start : Q;
  stop : Q;
  points : Z;
  avg : Q;
  _amplitude : Q;
  input : string;
  output_direct : string;
  acbandwidth : Q;
  sleeptimes : Q;
  logscale : bool;
  stabilize : option Q;          (* [None] is Python's [False] *)
  maxamplitude : Q;
  _setup : bool;
  (* attributes that exist only once [setup] has run *)
  x : option (list Q);
  _na_sleepcycles : option Z;
  _rescale : option Q;
  current_point : option Z;
  time_last_point : option Q
}.

(** The world a method runs in: the object, its demodulator, the wall
    clock, and the record of the calls to [sleep]. *)
Record World : Type := mkWorld {
  na : NA;
  iq : IQ;
  now : Q;
  slept : list Q
}.

Definition M (A : Type) : Type := World -> World * result A.

Definition ret {A} (a : A) : M A := fun w => (w, Ok a).
Definition raise {A} (e : exn) : M A := fun w => (w, Err e).
Definition bind {A B} (m : M A) (k : A -> M B) : M B :=
  fun w => match m w with
           | (w1, Ok a) => k a w1
           | (w1, Err e) => (w1, Err e)
           end.

Notation "v <- m ;; k" := (bind m (fun v => k))
  (at level 61, m at next level, right associativity).
Notation "m ;; k" := (bind m (fun _ => k))
  (at level 61, right associativity).

Definition get_na : M NA := fun w => (w, Ok (na w)).
Definition get_iq : M IQ := fun w => (w, Ok (iq w)).
Definition modify_na (f : NA -> NA) : M unit :=
  fun w => (mkWorld (f (na w)) (iq w) (now w) (slept w), Ok tt).
Definition modify_iq (f : IQ -> IQ) : M unit :=
  fun w => (mkWorld (na w) (f (iq w)) (now w) (slept w), Ok tt).

(** Reading an attribute that [setup] creates. *)
Definition attr {A} (name : string) (f : NA -> option A) : M A :=
  fun w => match f (na w) with
           | Some a => (w, Ok a)
           | None => (w, Err (AttributeError name))
           end.

(** [time()] and [sleep(d)].  The clock is a component of the world:
    [time()] reads it and [sleep(d)] moves it by [d].  The time the other
    statements take is not modelled: between two calls to [sleep] the
    clock stands still. *)
Definition time : M Q := fun w => (w, Ok (now w)).
Definition sleep (d : Q) : M unit :=
  fun w => (mkWorld (na w) (iq w) (now w + d) (slept w ++ [d]), Ok tt).

(** ** Attribute writes

    [upd_f v n] is the object [n] after [self.f = v]. *)

Definition upd_start v (n : NA) : NA :=
  mkNA v (stop n) (points n) (avg n) (_amplitude n) (input n)
    (output_direct n) (acbandwidth n) (sleeptimes n) (logscale n)
    (stabilize n) (maxamplitude n) (_setup n) (x n) (_na_sleepcycles n)
    (_rescale n) (current_point n) (time_last_point n).
Definition upd_stop v (n : NA) : NA :=
  mkNA (start n) v (points n) (avg n) (_amplitude n) (input n)
    (output_direct n) (acbandwidth n) (sleeptimes n) (logscale n)
    (stabilize n) (maxamplitude n) (_setup n) (x n) (_na_sleepcycles n)
    (_rescale n) (current_point n) (time_last_point n).
Definition upd_points v (n : NA) : NA :=
  mkNA (start n) (stop n) v (avg n) (_amplitude n) (input n)
    (output_direct n) (acbandwidth n) (sleeptimes n) (logscale n)
    (stabilize n) (maxamplitude n) (_setup n) (x n) (_na_sleepcycles n)
    (_rescale n) (current_point n) (time_last_point n).
Definition upd_avg v (n : NA) : NA :=
  mkNA (start n) (stop n) (points n) v (_amplitude n) (input n)
    (output_direct n) (acbandwidth n) (sleeptimes n) (logscale n)
    (stabilize n) (maxamplitude n) (_setup n) (x n) (_na_sleepcycles n)
    (_rescale n) (current_point n) (time_last_point n).
Definition upd__amplitude v (n : NA) : NA :=
  mkNA (start n) (stop n) (points n) (avg n) v (input n) (output_direct n)
    (acbandwidth n) (sleeptimes n) (logscale n) (stabilize n)
    (maxamplitude n) (_setup n) (x n) (_na_sleepcycles n) (_rescale n)
    (current_point n) (time_last_point n).
Definition upd_input v (n : NA) : NA :=
  mkNA (start n) (stop n) (points n) (avg n) (_amplitude n) v
    (output_direct n) (acbandwidth n) (sleeptimes n) (logscale n)
    (stabilize n) (maxamplitude n) (_setup n) (x n) (_na_sleepcycles n)
    (_rescale n) (current_point n) (time_last_point n).
Definition upd_output_direct v (n : NA) : NA :=
  mkNA (start n) (stop n) (points n) (avg n) (_amplitude n) (input n) v
    (acbandwidth n) (sleeptimes n) (logscale n) (stabilize n)
    (maxamplitude n) (_setup n) (x n) (_na_sleepcycles n) (_rescale n)
    (current_point n) (time_last_point n).
Definition upd_acbandwidth v (n : NA) : NA :=
  mkNA (start n) (stop n) (points n) (avg n) (_amplitude n) (input n)
    (output_direct n) v (sleeptimes n) (logscale n) (stabilize n)
    (maxamplitude n) (_setup n) (x n) (_na_sleepcycles n) (_rescale n)
    (current_point n) (time_last_point n).
Definition upd_sleeptimes v (n : NA) : NA :=
  mkNA (start n) (stop n) (points n) (avg n) (_amplitude n) (input n)
    (output_direct n) (acbandwidth n) v (logscale n) (stabilize n)
    (maxamplitude n) (_setup n) (x n) (_na_sleepcycles n) (_rescale n)
    (current_point n) (time_last_point n).
Definition upd_logscale v (n : NA) : NA :=
  mkNA (start n) (stop n) (points n) (avg n) (_amplitude n) (input n)
    (output_direct n) (acbandwidth n) (sleeptimes n) v (stabilize n)
    (maxamplitude n) (_setup n) (x n) (_na_sleepcycles n) (_rescale n)
    (current_point n) (time_last_point n).
Definition upd_stabilize v (n : NA) : NA :=
  mkNA (start n) (stop n) (points n) (avg n) (_amplitude n) (input n)
    (output_direct n) (acbandwidth n) (sleeptimes n) (logscale n) v
    (maxamplitude n) (_setup n) (x n) (_na_sleepcycles n) (_rescale n)
    (current_point n) (time_last_point n).
Definition upd_maxamplitude v (n : NA) : NA :=
  mkNA (start n) (stop n) (points n) (avg n) (_amplitude n) (input n)
    (output_direct n) (acbandwidth n) (sleeptimes n) (logscale n)
    (stabilize n) v (_setup n) (x n) (_na_sleepcycles n) (_rescale n)
    (current_point n) (time_last_point n).
Definition upd__setup v (n : NA) : NA :=
  mkNA (start n) (stop n) (points n) (avg n) (_amplitude n) (input n)
    (output_direct n) (acbandwidth n) (sleeptimes n) (logscale n)
    (stabilize n) (maxamplitude n) v (x n) (_na_sleepcycles n) (_rescale n)
    (current_point n) (time_last_point n).
Definition upd_x v (n : NA) : NA :=
  mkNA (start n) (stop n) (points n) (avg n) (_amplitude n) (input n)
    (output_direct n) (acbandwidth n) (sleeptimes n) (logscale n)
    (stabilize n) (maxamplitude n) (_setup n) v (_na_sleepcycles n)
    (_rescale n) (current_point n) (time_last_point n).
Definition upd__na_sleepcycles v (n : NA) : NA :=
  mkNA (start n) (stop n) (points n) (avg n) (_amplitude n) (input n)
    (output_direct n) (acbandwidth n) (sleeptimes n) (logscale n)
    (stabilize n) (maxamplitude n) (_setup n) (x n) v (_rescale n)
    (current_point n) (time_last_point n).
Definition upd__rescale v (n : NA) : NA :=
  mkNA (start n) (stop n) (points n) (avg n) (_amplitude n) (input n)
    (output_direct n) (acbandwidth n) (sleeptimes n) (logscale n)
    (stabilize n) (maxamplitude n) (_setup n) (x n) (_na_sleepcycles n) v
    (current_point n) (time_last_point n).
Definition upd_current_point v (n : NA) : NA :=
  mkNA (start n) (stop n) (points n) (avg n) (_amplitude n) (input n)
    (output_direct n) (acbandwidth n) (sleeptimes n) (logscale n)
    (stabilize n) (maxamplitude n) (_setup n) (x n) (_na_sleepcycles n)
    (_rescale n) v (time_last_point n).
Definition upd_time_last_point v (n : NA) : NA :=
  mkNA (start n) (stop n) (points n) (avg n) (_amplitude n) (input n)
    (output_direct n) (acbandwidth n) (sleeptimes n) (logscale n)
    (stabilize n) (maxamplitude n) (_setup n) (x n) (_na_sleepcycles n)
    (_rescale n) (current_point n) v.

Definition upd_iq_frequency v (d : IQ) : IQ :=
  mkIQ v (iq_bandwidth d) (iq_amplitude d) (iq_gain d) (iq_phase d)
    (iq_acbandwidth d) (iq_input d) (iq_output_direct d)
    (iq_output_signal d) (iq_na_averages d) (iq_trace d).
Definition upd_iq_bandwidth v (d : IQ) : IQ :=
  mkIQ (iq_frequency d) v (iq_amplitude d) (iq_gain d) (iq_phase d)
    (iq_acbandwidth d) (iq_input d) (iq_output_direct d)
    (iq_output_signal d) (iq_na_averages d) (iq_trace d).
Definition upd_iq_amplitude v (d : IQ) : IQ :=
  mkIQ (iq_frequency d) (iq_bandwidth d) v (iq_gain d) (iq_phase d)
    (iq_acbandwidth d) (iq_input d) (iq_output_direct d)
    (iq_output_signal d) (iq_na_averages d) (iq_trace d).
Definition upd_iq_gain v (d : IQ) : IQ :=
  mkIQ (iq_frequency d) (iq_bandwidth d) (iq_amplitude d) v (iq_phase d)
    (iq_acbandwidth d) (iq_input d) (iq_output_direct d)
    (iq_output_signal d) (iq_na_averages d) (iq_trace d).
Definition upd_iq_phase v (d : IQ) : IQ :=
  mkIQ (iq_frequency d) (iq_bandwidth d) (iq_amplitude d) (iq_gain d) v
    (iq_acbandwidth d) (iq_input d) (iq_output_direct d)
    (iq_output_signal d) (iq_na_averages d) (iq_trace d).
Definition upd_iq_acbandwidth v (d : IQ) : IQ :=
  mkIQ (iq_frequency d) (iq_bandwidth d) (iq_amplitude d) (iq_gain d)
    (iq_phase d) v (iq_input d) (iq_output_direct d) (iq_output_signal d)
    (iq_na_averages d) (iq_trace d).
Definition upd_iq_input v (d : IQ) : IQ :=
  mkIQ (iq_frequency d) (iq_bandwidth d) (iq_amplitude d) (iq_gain d)
    (iq_phase d) (iq_acbandwidth d) v (iq_output_direct d)
    (iq_output_signal d) (iq_na_averages d) (iq_trace d).
Definition upd_iq_output_direct v (d : IQ) : IQ :=
  mkIQ (iq_frequency d) (iq_bandwidth d) (iq_amplitude d) (iq_gain d)
    (iq_phase d) (iq_acbandwidth d) (iq_input d) v (iq_output_signal d)
    (iq_na_averages d) (iq_trace d).
Definition upd_iq_output_signal v (d : IQ) : IQ :=
  mkIQ (iq_frequency d) (iq_bandwidth d) (iq_amplitude d) (iq_gain d)
    (iq_phase d) (iq_acbandwidth d) (iq_input d) (iq_output_direct d) v
    (iq_na_averages d) (iq_trace d).
Definition upd_iq_na_averages v (d : IQ) : IQ :=
  mkIQ (iq_frequency d) (iq_bandwidth d) (iq_amplitude d) (iq_gain d)
    (iq_phase d) (iq_acbandwidth d) (iq_input d) (iq_output_direct d)
    (iq_output_signal d) v (iq_trace d).
Definition upd_iq_trace v (d : IQ) : IQ :=
  mkIQ (iq_frequency d) (iq_bandwidth d) (iq_amplitude d) (iq_gain d)
    (iq_phase d) (iq_acbandwidth d) (iq_input d) (iq_output_direct d)
    (iq_output_signal d) (iq_na_averages d) v.

Definition set_na_field {V} (upd : V -> NA -> NA) (v : V) : M unit :=
  modify_na (upd v).

(** Python's [l[i]] for an integer index: a negative index counts from the
    end, and an index outside the sequence raises [IndexError]. *)
Definition getitem {A} (l : list A) (i : Z) : M A :=
  let j := if (i <? 0)%Z then (Z.of_nat (List.length l) + i)%Z else i in
  if (j <? 0)%Z then raise IndexError
  else match nth_error l (Z.to_nat j) with
       | Some a => ret a
       | None => raise IndexError
       end.

(** [np.round] rounds half-way cases to the nearest even integer. *)
Definition round_half_even (q : Q) : Z :=
  let f := Qfloor q in
  match Qcompare (q - inject_Z f) (1 # 2) with
  | Lt => f
  | Gt => (f + 1)%Z
  | Eq => if Z.even f then f else (f + 1)%Z
  end.

(** [np.int(np.round(v))]: [np.int] is Python's [int], which raises
    [OverflowError] on an infinity and [ValueError] on [nan]. *)
Definition np_int_round (v : np_float) : M Z :=
  match v with
  | Finite q => ret (round_half_even q)
  | Infinite => raise OverflowError
  | NaN => raise ValueError
  end.

Definition Qof_nat (n : nat) : Q := inject_Z (Z.of_nat n).

(** Loading a name inside a method body: the locals come first; no name
    bound at module level ([np], [sys], [sleep], [time], [NotReadyError],
    [NetworkAnalyzer]) holds a sample, so any other name is unbound. *)
Definition load_name (locals : list (string * Cplx)) (name : string)
  : M Cplx :=
  match find (fun p => String.eqb (fst p) name) locals with
  | Some p => ret (snd p)
  | None => raise (NameError name)
  end.

(** The keyword arguments of [setup] and [curve]; [None] is Python's
    [None].  For [stabilize], [Some None] is [False]. *)
Record options : Type := mkOptions {
  o_start : option Q;
  o_stop : option Q;
  o_points : option Z;
  o_rbw : option rbw_arg;
  o_avg : option Q;
  o_amplitude : option Q;
  o_input : option string;
  o_output_direct : option string;
  o_acbandwidth : option Q;
  o_sleeptimes : option Q;
  o_logscale : option bool;
  o_stabilize : option (option Q);
  o_maxamplitude : option Q
}.

(** A point of the sweep: frequency, response, drive amplitude. *)
Definition point : Type := (Q * Cplx * Q)%type.

(** ** Generators

    The generator object made by [values()]: not yet started, suspended at
    its [yield], or finished.  The consumer may ask for the next value,
    close it (which is also what happens to an abandoned generator), or
    throw an exception into it. *)
Inductive gen_state : Type := GenCreated | GenSuspended | GenClosed.

Inductive action : Type := Next | Close | Throw (e : exn).

Inductive outcome : Type :=
| Yield (p : point)
| StopIteration
| Closed.

(** [a[i] = v] on a numpy array of fixed length. *)
Definition setitem {A} (l : list A) (i : nat) (v : A) : option (list A) :=
  if (i <? List.length l)%nat then Some (firstn i l ++ v :: skipn (S i) l)
  else None.

Section Analyzer.
Context {hw : Demodulator} {fl : FloatLib}.

(** *** Register writes of the demodulator *)

Definition log_event (e : iq_event) (d : IQ) : IQ :=
  upd_iq_trace (iq_trace d ++ [e]) d.

(** Modelled from the spec: the setter of [iq.frequency], absent from the
    sources; the register takes the hardware-quantized value. *)
Definition iq_set_frequency (f : Q) : M unit :=
  modify_iq (fun d =>
    log_event (SetFrequency f) (upd_iq_frequency (quant_frequency f) d)).

(** Modelled from the spec: the setter of [iq.bandwidth], absent from the
    sources; each stage takes the discretized bandwidth. *)
Definition iq_set_bandwidth (l : list Q) : M unit :=
  modify_iq (fun d =>
    log_event (SetBandwidth l)
      (upd_iq_bandwidth (map quant_bandwidth l) d)).

(** Modelled from the spec: the setter of [iq.amplitude], absent from the
    sources. *)
Definition iq_set_amplitude (a : Q) : M unit :=
  modify_iq (fun d =>
    log_event (SetAmplitude a) (upd_iq_amplitude (quant_amplitude a) d)).

(** Modelled from the spec: the write of [iq._na_averages], an attribute
    of the module that is absent from the sources (section 4.1, step 5:
    the number of cycles the demodulator averages over); the value is
    kept as it is given. *)
Definition iq_set_na_averages (n : Z) : M unit :=
  modify_iq (fun d =>
    log_event (SetNaAverages n) (upd_iq_na_averages (Some n) d)).

(** Modelled from the spec: [iq._logger.info], absent from the sources;
    the message is kept in the trace. *)
Definition iq_logger_info (msg : string) : M unit :=
  modify_iq (log_event (LogInfo msg)).

(** Modelled from the spec: [iq.setup(frequency=..., bandwidth=..., ...)],
    absent from the sources (section 6, [setParameters]): every named
    register is written; a single bandwidth configures the first filter
    stage. *)
Definition iq_setup (frequency bandwidth gain phase acbw amplitude : Q)
    (inp out sig : string) : M unit :=
  modify_iq (fun d =>
    log_event
      (IqSetup frequency bandwidth gain phase acbw amplitude inp out sig)
      (mkIQ (quant_frequency frequency) [quant_bandwidth bandwidth]
            (quant_amplitude amplitude) gain phase acbw inp out sig
            (iq_na_averages d) (iq_trace d))).

(** *** Properties of the analyzer *)

(** [rbw]: the first bandwidth the demodulator reports. *)
Definition rbw : M Q :=
  d <- get_iq ;; getitem (iq_bandwidth d) 0.

(** The [rbw] setter: a number is doubled into a two-stage list. *)
Definition rbw_setter (val : rbw_arg) : M unit :=
  let val := match val with
             | RbwList l => l
             | RbwScalar v => [v; v]
             end in
  iq_set_bandwidth val.

Definition amplitude : M Q :=
  n <- get_na ;; ret (_amplitude n).

Definition amplitude_setter (val : Q) : M unit :=
  iq_set_amplitude val ;;
  d <- get_iq ;;
  set_na_field upd__amplitude (iq_amplitude d).

(** Python's float division. *)
Definition fdiv (a b : Q) : M Q :=
  if Qeq_bool b 0 then raise ZeroDivisionError else ret (a / b).

(** The float an arithmetic operation returns for the exact value [v]:
    an infinity beyond the largest finite float. *)
Definition to_float (v : Q) : np_float :=
  if Qle_bool (Qabs v) float_max then Finite v else Infinite.

(** A Python number as an operand of float arithmetic: a float is taken
    as it is, an integer is converted, and an integer beyond the range of
    the floats cannot be ([OverflowError]). *)
Definition as_float (k : Q) : M Q :=
  if Qle_bool (Qabs k) float_max then ret k else raise OverflowError.

(** [a * k] on floats: an infinity times zero is [nan]. *)
Definition np_mul (a : np_float) (k : Q) : np_float :=
  match a with
  | Finite v => to_float (v * k)
  | Infinite => if Qeq_bool k 0 then NaN else Infinite
  | NaN => NaN
  end.

(** [2.0 ** e]: Python's float power raises [OverflowError] when the
    result leaves the range of the floats. *)
Definition fpow2 (e : Z) : M Q :=
  if Qle_bool (Qpower 2 e) float_max then ret (Qpower 2 e)
  else raise OverflowError.

Definition time_per_point : M Q :=
  b <- rbw ;;
  inv <- fdiv 1 b ;;
  n <- get_na ;;
  ret (inv * (avg n + sleeptimes n)).

(** *** [__init__] *)

(** The object before the constructor has written anything. *)
Definition blank : NA :=
  mkNA 0 0 0 0 0 "" "" 0 0 false None 0 false None None None None None.

Definition __init__ : M unit :=
  set_na_field upd_start 200 ;;
  set_na_field upd_stop 50000 ;;
  set_na_field upd_points 1001%Z ;;
  rbw_setter (RbwScalar 200) ;;
  set_na_field upd_avg 1 ;;
  amplitude_setter (1 # 100) ;;
  set_na_field upd_input "adc1"%string ;;
  set_na_field upd_output_direct "off"%string ;;
  set_na_field upd_acbandwidth 0 ;;
  set_na_field upd_sleeptimes (1 # 2) ;;
  set_na_field upd_logscale false ;;
  set_na_field upd_stabilize None ;;
  set_na_field upd_maxamplitude 1 ;;
  set_na_field upd__setup false.

(** A freshly constructed analyzer on the demodulator [d] at time [t]. *)
Definition fresh (d : IQ) (t : Q) : World :=
  fst (__init__ (mkWorld blank d t [])).

(** *** [setup] *)

(** [if v is not None: self.f = v] *)
Definition when_given {V} (o : option V) (k : V -> M unit) : M unit :=
  match o with
  | Some v => k v
  | None => ret tt
  end.

(** Lines 120-132: the options that were given are written, in order. *)
Definition merge_options (o : options) : M unit :=
  when_given (o_start o) (set_na_field upd_start) ;;
  when_given (o_stop o) (set_na_field upd_stop) ;;
  when_given (o_points o) (set_na_field upd_points) ;;
  when_given (o_rbw o) rbw_setter ;;
  when_given (o_avg o) (set_na_field upd_avg) ;;
  when_given (o_amplitude o) amplitude_setter ;;
  when_given (o_input o) (set_na_field upd_input) ;;
  when_given (o_output_direct o) (set_na_field upd_output_direct) ;;
  when_given (o_acbandwidth o) (set_na_field upd_acbandwidth) ;;
  when_given (o_sleeptimes o) (set_na_field upd_sleeptimes) ;;
  when_given (o_logscale o) (set_na_field upd_logscale) ;;
  when_given (o_stabilize o) (set_na_field upd_stabilize) ;;
  when_given (o_maxamplitude o) (set_na_field upd_maxamplitude).

(** Lines 136-143; numpy rejects a negative number of samples. *)
Definition make_axis : M (list Q) :=
  n <- get_na ;;
  if (points n <? 0)%Z then raise ValueError
  else ret (frequency_axis Qplus Qminus Qmult Qdiv Qof_nat log10 pow10
              (logscale n) (start n) (stop n) (Z.to_nat (points n))).

(** Lines 145-149: the preventive saturation. *)
Definition saturate (amp maxamp : Q) : Q :=
  let maxamplitude := Qabs maxamp in
  let amplitude := Qabs amp in
  if Qgtb amplitude maxamplitude then maxamplitude else amplitude.

(** [2.0 ** (-self.iq._LPFBITS) * 4.0] *)
Definition rescale_factor : Q := Qpower 2 (- _LPFBITS) * 4.

(** Lines 134-181: the axis is computed and the demodulator armed.  The
    arguments of [iq.setup] are evaluated first: [self.x[0]], then
    [self.rbw], the bandwidth read back. *)
Definition arm : M unit :=
  set_na_field upd__setup true ;;
  axis <- make_axis ;;
  set_na_field upd_x (Some axis) ;;
  n <- get_na ;;
  let amp := saturate (_amplitude n) (maxamplitude n) in
  x0 <- getitem axis 0 ;;
  bw <- rbw ;;
  iq_setup x0 bw 0 0 (- acbandwidth n) amp (input n) (output_direct n)
           "output_direct" ;;
  (* rbw = self.iq.bandwidth[0], a local that is not used again *)
  _ <- rbw ;;
  (* self.iq._na_averages = np.int(np.round(125e6 / self.rbw * self.avg)) *)
  b1 <- rbw ;;
  r1 <- fdiv 125000000 b1 ;;
  k1 <- as_float (avg n) ;;
  averages <- np_int_round (np_mul (to_float r1) k1) ;;
  iq_set_na_averages averages ;;
  (* self._na_sleepcycles =
       np.int(np.round(125e6 / self.rbw * self.sleeptimes)) *)
  b2 <- rbw ;;
  r2 <- fdiv 125000000 b2 ;;
  k2 <- as_float (sleeptimes n) ;;
  sleepcycles <- np_int_round (np_mul (to_float r2) k2) ;;
  set_na_field upd__na_sleepcycles (Some sleepcycles) ;;
  (* rescale = 2.0 ** (-self.iq._LPFBITS) * 4.0, a local that is not used
     again *)
  _ <- fpow2 (- _LPFBITS) ;;
  (* self._rescale = 2.0 ** (-self.iq._LPFBITS) * 4.0 *)
  p <- fpow2 (- _LPFBITS) ;;
  set_na_field upd__rescale (Some (p * 4)) ;;
  set_na_field upd_current_point (Some 0%Z) ;;
  (* self.iq.frequency = self.x[0]: this triggers the acquisition *)
  x0' <- getitem axis 0 ;;
  iq_set_frequency x0' ;;
  t <- time ;;
  set_na_field upd_time_last_point (Some t).

Definition setup (o : options) : M unit :=
  merge_options o ;;
  arm.

(** *** [get_current_point] *)

(** The world after the pacing wait: [sleep(remaining)] when
    [remaining >= 0], nothing otherwise. *)
Definition paced (w : World) (remaining : Q) : World :=
  if Qle_bool 0 remaining
  then mkWorld (na w) (iq w) (now w + remaining) (slept w ++ [remaining])
  else w.

Definition get_current_point : M point :=
  current_time <- time ;;
  tlp <- attr "time_last_point" time_last_point ;;
  let duration := current_time - tlp in
  tpp <- time_per_point ;;
  let remaining := tpp - duration in
  (if Qle_bool 0 remaining then sleep remaining else ret tt) ;;
  d <- get_iq ;;
  let xf := iq_frequency d in
  t <- time ;;
  let y := _nadata d t in
  amp <- amplitude ;;
  if Qeq_bool amp 0 then
    r <- attr "_rescale" _rescale ;;
    ret (xf, cscale r y, amp)
  else
    r <- attr "_rescale" _rescale ;;
    ret (xf, cscale (r / amp) y, amp).

(** *** [prepare_for_next_point] *)

Definition prepare_for_next_point (last_normalized_val : Cplx) : M unit :=
  n <- get_na ;;
  amplitude_next <-
    match stabilize n with
    | Some target =>
        y <- load_name [("last_normalized_val"%string,
                         last_normalized_val)] "y" ;;
        ret (target / np_abs y)
    | None => amplitude
    end ;;
  let amplitude_next :=
    if Qgtb amplitude_next (maxamplitude n) then maxamplitude n
    else amplitude_next in
  iq_set_amplitude amplitude_next ;;
  cp <- attr "current_point" current_point ;;
  set_na_field upd_current_point (Some (cp + 1)%Z) ;;
  (if (cp + 1 <? points n)%Z then
     axis <- attr "x" x ;;
     f <- getitem axis (cp + 1)%Z ;;
     iq_set_frequency f
   else ret tt) ;;
  t <- time ;;
  set_na_field upd_time_last_point (Some t).

(** *** [values] *)

(** The [finally] clause of [values]. *)
Definition finally_clause : M unit :=
  iq_set_amplitude 0 ;;
  axis <- attr "x" x ;;
  x0 <- getitem axis 0 ;;
  iq_set_frequency x0.

(** The [except Exception as e] clause: log, then raise [e] again. *)
Definition except_clause {A} (e : exn) : M A :=
  iq_logger_info "NA output turned off due to an exception" ;;
  raise e.

(** From the test of the [while] to the next [yield] ([Some]) or to the
    end of the loop ([None]). *)
Definition loop_iteration : M (option point) :=
  cp <- attr "current_point" current_point ;;
  n <- get_na ;;
  if (cp <? points n)%Z then
    p <- get_current_point ;;
    let '(xf, y, amp) := p in
    xf <- (if Qeq_bool (start n) (stop n) then time else ret xf) ;;
    prepare_for_next_point y ;;
    ret (Some (xf, y, amp))
  else ret None.

(** Leaving the [try] statement with the pending result [r]: the
    [finally] clause runs, and an exception of its own replaces [r]. *)
Definition leave_try (r : result outcome) (w : World)
  : World * gen_state * result outcome :=
  match finally_clause w with
  | (w', Ok _) => (w', GenClosed, r)
  | (w', Err e) => (w', GenClosed, Err e)
  end.

(** An exception [e] reaches the [try] statement. *)
Definition handle (e : exn) (w : World)
  : World * gen_state * result outcome :=
  match except_clause (A := unit) e w with
  | (w', Ok _) => leave_try (Err e) w'
  | (w', Err e') => leave_try (Err e') w'
  end.

(** The body runs from where it stands to its next stop. *)
Definition resume (w : World) : World * gen_state * result outcome :=
  match loop_iteration w with
  | (w', Ok (Some p)) => (w', GenSuspended, Ok (Yield p))
  | (w', Ok None) => leave_try (Ok StopIteration) w'
  | (w', Err e) => handle e w'
  end.

(** One action of the consumer on the generator.  Before the first
    [next] no line of the body has run, so [close] and [throw] do not
    enter the [try]; [close] raises [GeneratorExit] at the [yield],
    which is no [Exception] and reaches the [finally] clause only. *)
Definition values_step (a : action) (g : gen_state) (w : World)
  : World * gen_state * result outcome :=
  match g, a with
  | GenCreated, Next => resume w
  | GenCreated, Close => (w, GenClosed, Ok Closed)
  | GenCreated, Throw e => (w, GenClosed, Err e)
  | GenSuspended, Next => resume w
  | GenSuspended, Close => leave_try (Ok Closed) w
  | GenSuspended, Throw e => handle e w
  | GenClosed, Next => (w, GenClosed, Ok StopIteration)
  | GenClosed, Close => (w, GenClosed, Ok Closed)
  | GenClosed, Throw e => (w, GenClosed, Err e)
  end.

(** [values()] only makes the generator object. *)
Definition values : gen_state := GenCreated.

(** A consumer's whole script, action by action. *)
Fixpoint run_values (script : list action) (g : gen_state) (w : World)
  : World * gen_state * list (result outcome) :=
  match script with
  | [] => (w, g, [])
  | a :: rest =>
      match values_step a g w with
      | (w1, g1, r) =>
          match run_values rest g1 w1 with
          | (w2, g2, rs) => (w2, g2, r :: rs)
          end
      end
  end.

(** *** [curve] *)

Definition arrays : Type := (list Q * list Cplx * list Q)%type.

(** The [for] loop of [curve]; [None] when [fuel] does not suffice.  An
    exception in the loop body abandons the generator. *)
Fixpoint for_values (fuel : nat) (g : gen_state) (index : nat)
    (acc : arrays) (w : World) : World * option (result arrays) :=
  match fuel with
  | O => (w, None)
  | S fuel' =>
      match values_step Next g w with
      | (w1, g1, Ok (Yield (xf, y, amp))) =>
          let '(xs, ys, amps) := acc in
          match setitem xs index xf, setitem ys index y,
                setitem amps index amp with
          | Some xs', Some ys', Some amps' =>
              for_values fuel' g1 (S index) (xs', ys', amps') w1
          | _, _, _ =>
              match values_step Close g1 w1 with
              | (w2, _, Err e) => (w2, Some (Err e))
              | (w2, _, Ok _) => (w2, Some (Err IndexError))
              end
          end
      | (w1, _, Ok _) => (w1, Some (Ok acc))
      | (w1, _, Err e) => (w1, Some (Err e))
      end
  end.

Definition curve (fuel : nat) (o : options)
  : World -> World * option (result arrays) :=
  fun w =>
    match setup o w with
    | (w1, Err e) => (w1, Some (Err e))
    | (w1, Ok _) =>
        let num := Z.to_nat (points (na w1)) in
        for_values fuel values 0
          (repeat 0 num, repeat (0, 0) num, repeat 0 num) w1
    end.
End Analyzer.

(** ** The frequency axis over the reals

    The same [frequency_axis], with exact real arithmetic in place of
    floats: [log10 v] is [ln v / ln 10] and [10 ** v] is [Rpower 10 v]. *)
Definition Rlog10 (v : R) : R := (ln v / ln 10)%R.
Definition Rpow10 (v : R) : R := Rpower 10 v.
Definition real_linspace : R -> R -> nat -> list R :=
  linspace Rplus Rminus Rmult Rdiv INR.
Definition real_axis : bool -> R -> R -> nat -> list R :=
  frequency_axis Rplus Rminus Rmult Rdiv INR Rlog10 Rpow10.

(** ** Concrete hardware, for examples

    A demodulator that accepts every value as requested and whose raw
    sample is proportional to the drive amplitude, and a float library
    that is only good for linear sweeps of real-valued samples. *)
Definition ideal_iq : Demodulator :=
  {| quant_frequency := fun f => f;
     quant_bandwidth := fun b => b;
     quant_amplitude := fun a => a;
     _LPFBITS := 24;
     _nadata := fun d _ => (Qred (iq_amplitude d * 4194304), 0) |}.

Definition plain_floats : FloatLib :=
  {| log10 := fun v => v;
     pow10 := fun v => v;
     np_abs := fun z => Qabs (fst z);
     float_max := inject_Z (2 ^ 1024 - 2 ^ 971) |}.

Definition idle_iq : IQ := mkIQ 0 [] 0 0 0 0 "" "" "" None [].

(** A new analyzer on that hardware, at time 0. *)
Definition new_analyzer : World :=
  @fresh ideal_iq idle_iq 0.

Definition run_setup (o : options) (w : World) : World :=
  fst (@setup ideal_iq plain_floats o w).

(** [setup(start=100, stop=1000, points=3, rbw=100, avg=2)] *)
Definition sweep_options : options :=
  mkOptions (Some 100) (Some 1000) (Some 3%Z) (Some (RbwScalar 100))
            (Some 2) None None None None None None None None.

(** [setup(start=1000, stop=1000, points=5, rbw=100, avg=2)] *)
Definition zero_span_options : options :=
  mkOptions (Some 1000) (Some 1000) (Some 5%Z) (Some (RbwScalar 100))
            (Some 2) None None None None None None None None.

(** [setup(start=200, stop=50000, points=1)] *)
Definition single_point_options : options :=
  mkOptions (Some 200) (Some 50000) (Some 1%Z) None
            None None None None None None None None None.

(** [setup(points=3, amplitude=-0.5, maxamplitude=1)] *)
Definition negative_amplitude_options : options :=
  mkOptions None None (Some 3%Z) None None (Some (- (1 # 2))) None None None
            None None None (Some 1).

(** [setup(points=3, stabilize=0.1)] *)
Definition stabilized_options : options :=
  mkOptions None None (Some 3%Z) None None None None None None
            None None (Some (Some (1 # 10))) None.

(** [setup(points=3, rbw=100, avg=1e305)] *)
Definition overflow_options : options :=
  mkOptions None None (Some 3%Z) (Some (RbwScalar 100))
            (Some (inject_Z (10 ^ 305))) None None None None None None None
            None.

(** The time stamps of the points among the results of a script. *)
Fixpoint stamps (rs : list (result outcome)) : list Q :=
  match rs with
  | [] => []
  | Ok (Yield (xf, _, _)) :: rest => xf :: stamps rest
  | _ :: rest => stamps rest
  end.

(** ** The remaining accessors *)

Section Accessors.
Context {hw : Demodulator} {fl : FloatLib}.

(** [current_freq]: the frequency the demodulator reports. *)
Definition current_freq : M Q :=
  d <- get_iq ;; ret (iq_frequency d).

(** [params]: the dictionary [dict(start=..., stop=..., avg=..., rbw=...,
    points=..., input=..., output_direct=..., stabilize=..., acbandwidth=...,
    amplitude=..., logscale=...)], as the bag of keyword arguments it is
    built from; the keys it does not hold ([sleeptimes], [maxamplitude])
    read [None], which is what the defaults of [setup] make of an absent
    keyword.  The values are read in the order of the source; [rbw] and
    [amplitude] go through their properties. *)
Definition params : M options :=
  n <- get_na ;;
  b <- rbw ;;
  a <- amplitude ;;
  ret (mkOptions (Some (start n)) (Some (stop n)) (Some (points n))
                 (Some (RbwScalar b)) (Some (avg n)) (Some a)
                 (Some (input n)) (Some (output_direct n))
                 (Some (acbandwidth n)) None (Some (logscale n))
                 (Some (stabilize n)) None).
End Accessors.

(** ** The [iq] property and the pool of the parent device

    [self.rp.iqs] is a list of free modules; [list.pop()] removes and
    returns its last item and raises [IndexError] on an empty list.  The
    analyzer keeps the module it has taken in [_iq]. *)
Record holder : Type := mkHolder {
  _iq : option IQ;
  rp_iqs : list IQ
}.

Definition list_pop {A} (l : list A) : result (A * list A) :=
  match rev l with
  | [] => Err IndexError
  | a :: r => Ok (a, rev r)
  end.

(** [if not hasattr(self, '_iq'): self._iq = self.rp.iqs.pop()] and
    [return self._iq] *)
Definition iq_property (h : holder) : holder * result IQ :=
  match _iq h with
  | Some d => (h, Ok d)
  | None =>
      match list_pop (rp_iqs h) with
      | Ok (d, rest) => (mkHolder (Some d) rest, Ok d)
      | Err e => (h, Err e)
      end
  end.

(** [NetworkAnalyzer(rp)] at time [t]: the constructor reaches the [iq]
    property at [self.rbw = 200]; the plain attributes written before it
    stay with an object nobody holds when it raises. *)
Definition new_NetworkAnalyzer {hw : Demodulator} (pool : list IQ) (t : Q)
  : list IQ * result World :=
  match iq_property (mkHolder None pool) with
  | (h, Ok d) => (rp_iqs h, Ok (fresh d t))
  | (h, Err e) => (rp_iqs h, Err e)
  end.

(** ** A sweep in progress *)

(** The points among the results of a script. *)
Fixpoint yields (rs : list (result outcome)) : list point :=
  match rs with
  | [] => []
  | Ok (Yield p) :: rest => p :: yields rest
  | _ :: rest => yields rest
  end.

Definition point_frequency (p : point) : Q := fst (fst p).
Definition point_amplitude (p : point) : Q := snd p.

(** An unstabilized sweep over [axis] that stands at point [i]: the
    attributes [setup] creates are there, the demodulator reports a
    bandwidth that is not zero and is tuned to the [i]-th axis value. *)
Definition sweeping {hw : Demodulator} (axis : list Q) (i : nat) (w : World)
  : Prop :=
  x (na w) = Some axis /\
  points (na w) = Z.of_nat (List.length axis) /\
  current_point (na w) = Some (Z.of_nat i) /\
  stabilize (na w) = None /\
  (exists t, time_last_point (na w) = Some t) /\
  (exists r, _rescale (na w) = Some r) /\
  (exists b bs, iq_bandwidth (iq w) = b :: bs /\ Qeq_bool b 0 = false) /\
  (forall f, nth_error axis i = Some f ->
             iq_frequency (iq w) = quant_frequency f).

(** The calls to [sleep] between two worlds, none with a negative
    duration. *)
Definition slept_since (w w' : World) : Prop :=
  exists l, slept w' = slept w ++ l /\ Forall (fun d => 0 <= d) l.

(** Without an axis nothing tunes the demodulator. *)
Definition untuned (w w' : World) : Prop :=
  x (na w) = None ->
  x (na w') = None /\ iq_frequency (iq w') = iq_frequency (iq w).

(** ** Vocabulary of the statements *)

(** A relation between the world before and the world after that a
    computation maintains, whatever its result. *)
Definition stable {A} (R : World -> World -> Prop) (m : M A) : Prop :=
  forall w w' r, m w = (w', r) -> R w w'.

Record preorder (R : World -> World -> Prop) : Prop := {
  pre_refl : forall w, R w w;
  pre_trans : forall w1 w2 w3, R w1 w2 -> R w2 w3 -> R w1 w3
}.

(** What a sweep in progress leaves alone: the configuration, the axis,
    the rescaling factor and the bandwidth of the demodulator. *)
Definition same_sweep (w w' : World) : Prop :=
  start (na w') = start (na w) /\
  stop (na w') = stop (na w) /\
  points (na w') = points (na w) /\
  avg (na w') = avg (na w) /\
  sleeptimes (na w') = sleeptimes (na w) /\
  _amplitude (na w') = _amplitude (na w) /\
  maxamplitude (na w') = maxamplitude (na w) /\
  stabilize (na w') = stabilize (na w) /\
  x (na w') = x (na w) /\
  _rescale (na w') = _rescale (na w) /\
  iq_bandwidth (iq w') = iq_bandwidth (iq w).

(** The value of a configuration field after [setup]: the option when
    one was given, the old value otherwise. *)
Definition given {V} (o : option V) (old : V) : V :=
  match o with
  | Some v => v
  | None => old
  end.

Definition opt_upd {V} (upd : V -> NA -> NA) (o : option V) (n : NA) : NA :=
  match o with
  | Some v => upd v n
  | None => n
  end.

(** The thirteen persisted configuration fields of the object; [rbw] lives
    in the demodulator. *)
Definition same_config (w w' : World) : Prop :=
  start (na w') = start (na w) /\
  stop (na w') = stop (na w) /\
  points (na w') = points (na w) /\
  avg (na w') = avg (na w) /\
  _amplitude (na w') = _amplitude (na w) /\
  input (na w') = input (na w) /\
  output_direct (na w') = output_direct (na w) /\
  acbandwidth (na w') = acbandwidth (na w) /\
  sleeptimes (na w') = sleeptimes (na w) /\
  logscale (na w') = logscale (na w) /\
  stabilize (na w') = stabilize (na w) /\
  maxamplitude (na w') = maxamplitude (na w).

(** A number within the range of the floats. *)
Definition representable {fl : FloatLib} (v : Q) : Prop :=
  Qabs v <= float_max.

(** The bandwidths the [rbw] setter writes. *)
Definition rbw_list (val : rbw_arg) : list Q :=
  match val with
  | RbwList l => l
  | RbwScalar v => [v; v]
  end.

(** The demodulator and the object after lines 120-132 of [setup]: each
    option that is given is written, the bandwidth and the amplitude
    through the demodulator. *)
Definition merged_iq {hw : Demodulator} (o : options) (d : IQ) : IQ :=
  let d1 := match o_rbw o with
            | Some val =>
                log_event (SetBandwidth (rbw_list val))
                  (upd_iq_bandwidth (map quant_bandwidth (rbw_list val)) d)
            | None => d
            end in
  match o_amplitude o with
  | Some v =>
      log_event (SetAmplitude v) (upd_iq_amplitude (quant_amplitude v) d1)
  | None => d1
  end.

Definition merged_na {hw : Demodulator} (o : options) (n : NA) : NA :=
  opt_upd upd_maxamplitude (o_maxamplitude o)
  (opt_upd upd_stabilize (o_stabilize o)
  (opt_upd upd_logscale (o_logscale o)
  (opt_upd upd_sleeptimes (o_sleeptimes o)
  (opt_upd upd_acbandwidth (o_acbandwidth o)
  (opt_upd upd_output_direct (o_output_direct o)
  (opt_upd upd_input (o_input o)
  (opt_upd upd__amplitude (option_map quant_amplitude (o_amplitude o))
  (opt_upd upd_avg (o_avg o)
  (opt_upd upd_points (o_points o)
  (opt_upd upd_stop (o_stop o)
  (opt_upd upd_start (o_start o) n))))))))))).

(** * Properties *)

(** ** The frequency axis *)

Lemma linspace_length {A} add sub mul div of_nat (a b : A) n :
  List.length (linspace add sub mul div of_nat a b n) = n.
Proof.
  destruct n as [|[|m]]; simpl; trivial.
  rewrite length_app, length_map, length_seq. simpl. lia.
Qed.

Section RealAxis.
Local Open Scope R_scope.

(** The closed form of the samples: [a + i * (b - a) / (n - 1)]. *)
Lemma real_linspace_nth a b n i d :
  (2 <= n)%nat -> (i < n)%nat ->
  nth i (real_linspace a b n) d = a + INR i * ((b - a) / INR (n - 1)).
Proof.
  intros Hn Hi. destruct n as [|[|m]]; try lia.
  unfold real_linspace, linspace.
  replace (S (S m) - 1)%nat with (S m) by lia.
  assert (Hm : INR (S m) <> 0) by (apply not_0_INR; lia).
  destruct (Nat.eq_dec i (S m)) as [->|Hne].
  - rewrite app_nth2; rewrite length_map, length_seq; [|lia].
    rewrite Nat.sub_diag. simpl nth. field. exact Hm.
  - rewrite app_nth1 by (rewrite length_map, length_seq; lia).
    rewrite (nth_indep _ d (0 * ((b - a) / INR (S m)) + a))
      by (rewrite length_map, length_seq; lia).
    change (0 * ((b - a) / INR (S m)) + a)
      with ((fun i0 => INR i0 * ((b - a) / INR (S m)) + a) 0%nat).
    rewrite map_nth, seq_nth by lia. simpl plus. ring.
Qed.

Lemma ln10_pos : 0 < ln 10.
Proof. rewrite <- ln_1. apply ln_increasing; lra. Qed.

Lemma Rpow10_log10 v : 0 < v -> Rpow10 (Rlog10 v) = v.
Proof.
  intros Hv. unfold Rpow10, Rlog10, Rpower.
  replace (ln v / ln 10 * ln 10) with (ln v)
    by (field; apply Rgt_not_eq, ln10_pos).
  now apply exp_ln.
Qed.

Lemma ln_Rpow10 y : ln (Rpow10 y) = y * ln 10.
Proof. unfold Rpow10. apply ln_Rpower. Qed.

Lemma ln_le_mono a b : 0 < a -> a <= b -> ln a <= ln b.
Proof.
  intros Ha [Hlt | ->]; [left; now apply ln_increasing | right; reflexivity].
Qed.

Lemma Rpow10_le_mono a b : a <= b -> Rpow10 a <= Rpow10 b.
Proof.
  intros [Hlt | ->]; [left | right; reflexivity].
  unfold Rpow10, Rpower. apply exp_increasing.
  apply Rmult_lt_compat_r; [apply ln10_pos | exact Hlt].
Qed.

Lemma real_axis_length ls a b n : List.length (real_axis ls a b n) = n.
Proof.
  unfold real_axis, frequency_axis, logspace. destruct ls.
  - rewrite length_map. apply linspace_length.
  - apply linspace_length.
Qed.

Lemma real_axis_linear_nth a b n i :
  (2 <= n)%nat -> (i < n)%nat ->
  nth i (real_axis false a b n) 0 = a + INR i * ((b - a) / INR (n - 1)).
Proof. intros. now apply real_linspace_nth. Qed.

Lemma real_axis_log_nth a b n i :
  (2 <= n)%nat -> (i < n)%nat ->
  nth i (real_axis true a b n) 0 =
  Rpow10 (Rlog10 a + INR i * ((Rlog10 b - Rlog10 a) / INR (n - 1))).
Proof.
  intros Hn Hi. unfold real_axis, frequency_axis, logspace.
  rewrite (nth_indep _ 0 (Rpow10 0))
    by (rewrite length_map, linspace_length; lia).
  rewrite map_nth. f_equal. now apply real_linspace_nth.
Qed.

Lemma real_axis_last ls a b n :
  (2 <= n)%nat -> (ls = true -> 0 < b) -> last (real_axis ls a b n) 0 = b.
Proof.
  intros Hn Hb. destruct n as [|[|m]]; try lia.
  unfold real_axis, frequency_axis, logspace, linspace. destruct ls.
  - rewrite map_app.
    change (map Rpow10 [Rlog10 b]) with [Rpow10 (Rlog10 b)].
    rewrite last_last. apply Rpow10_log10. now apply Hb.
  - apply last_last.
Qed.

Lemma step_sign a b (n : nat) :
  (2 <= n)%nat -> a <= b -> 0 <= (b - a) / INR (n - 1).
Proof.
  intros Hn Hab. apply Rmult_le_pos; [lra|].
  left. apply Rinv_0_lt_compat. apply lt_0_INR. lia.
Qed.

(** C4 (amended): over exact arithmetic, and in logarithmic mode for
    positive bounds, the axis has exactly [points] elements; with a single
    point it is [start] alone; with two points or more its first element
    is [start], its last is [stop], it is monotonic in the direction from
    [start] to [stop], and consecutive differences (linear mode) or
    consecutive differences of logarithms (logarithmic mode) are
    constant. *)
Theorem frequency_axis_shape (ls : bool) (a b : R) (n : nat) :
  (ls = true -> 0 < a /\ 0 < b) ->
  let axis := real_axis ls a b n in
  List.length axis = n /\
  (n = 1%nat -> axis = [a]) /\
  ((2 <= n)%nat ->
     nth 0 axis 0 = a /\ last axis 0 = b /\
     (forall i, (S i < n)%nat ->
        (a <= b -> nth i axis 0 <= nth (S i) axis 0) /\
        (b <= a -> nth (S i) axis 0 <= nth i axis 0)) /\
     (forall i, (S i < n)%nat ->
        if ls
        then ln (nth (S i) axis 0) - ln (nth i axis 0)
             = (ln b - ln a) / INR (n - 1)
        else nth (S i) axis 0 - nth i axis 0 = (b - a) / INR (n - 1))).
Proof.
  intros Hpos axis. subst axis. split; [apply real_axis_length|]. split.
  - intros ->. destruct ls; cbn; trivial.
    f_equal. apply Rpow10_log10. now apply Hpos.
  - intros Hn.
    assert (Hd : INR (n - 1) <> 0) by (apply not_0_INR; lia).
    assert (HS : forall i, INR (S i) = INR i + 1) by (intros; apply S_INR).
    split; [|split; [|split]].
    + destruct ls.
      * rewrite real_axis_log_nth by lia. simpl INR.
        rewrite Rmult_0_l, Rplus_0_r. apply Rpow10_log10. now apply Hpos.
      * rewrite real_axis_linear_nth by lia. simpl INR. ring.
    + apply real_axis_last; trivial. intros E. now apply Hpos.
    + intros i Hi. destruct ls.
      * destruct (Hpos eq_refl) as [Ha Hb].
        rewrite !real_axis_log_nth by lia. rewrite HS.
        assert (L := ln10_pos).
        split; intros Hab; apply Rpow10_le_mono.
        -- assert (0 <= (Rlog10 b - Rlog10 a) / INR (n - 1)).
           { apply step_sign; trivial. unfold Rlog10.
             apply Rmult_le_compat_r; [left; now apply Rinv_0_lt_compat|].
             now apply ln_le_mono. }
           lra.
        -- assert (0 <= (Rlog10 a - Rlog10 b) / INR (n - 1)).
           { apply step_sign; trivial. unfold Rlog10.
             apply Rmult_le_compat_r; [left; now apply Rinv_0_lt_compat|].
             now apply ln_le_mono. }
           replace ((Rlog10 b - Rlog10 a) / INR (n - 1))
             with (- ((Rlog10 a - Rlog10 b) / INR (n - 1)))
             by (field; exact Hd).
           lra.
      * rewrite !real_axis_linear_nth by lia. rewrite HS.
        split; intros Hab.
        -- assert (0 <= (b - a) / INR (n - 1)) by now apply step_sign.
           lra.
        -- assert (0 <= (a - b) / INR (n - 1)) by now apply step_sign.
           replace ((b - a) / INR (n - 1))
             with (- ((a - b) / INR (n - 1))) by (field; exact Hd).
           lra.
    + intros i Hi. destruct ls.
      * rewrite !real_axis_log_nth by lia. rewrite !ln_Rpow10, HS.
        unfold Rlog10. field. split; [exact Hd | apply Rgt_not_eq, ln10_pos].
      * rewrite !real_axis_linear_nth by lia. rewrite HS. field. exact Hd.
Qed.

(** In linear mode the axis [setup] computes on rationals is, value for
    value, the axis over the reals. *)
Lemma Q2R_Qof_nat i : Q2R (Qof_nat i) = INR i.
Proof.
  unfold Qof_nat, Q2R. cbn. rewrite <- INR_IZR_INZ. field.
Qed.

Lemma rational_linspace_real (a b : Q) (n : nat) :
  map Q2R (linspace Qplus Qminus Qmult Qdiv Qof_nat a b n)
  = real_linspace (Q2R a) (Q2R b) n.
Proof.
  destruct n as [|[|m]]; trivial.
  unfold real_linspace, linspace.
  rewrite map_app, map_map. cbn [map]. f_equal.
  apply map_ext. intros i.
  assert (Hm : ~ (Qof_nat (S m) == 0)%Q).
  { intros E. apply Qeq_eqR in E. rewrite Q2R_Qof_nat in E.
    change (Q2R 0) with (0 * / 1) in E. rewrite Rmult_0_l in E.
    revert E. apply not_0_INR. discriminate. }
  rewrite Q2R_plus, Q2R_mult, Q2R_div, Q2R_minus, !Q2R_Qof_nat by exact Hm.
  reflexivity.
Qed.

(** A logarithmic sweep from 1 to 100 in three points. *)
Lemma frequency_axis_shape_witness :
  (true = true -> 0 < 1 /\ 0 < 100) /\
  List.length (real_axis true 1 100 3) = 3%nat /\
  last (real_axis true 1 100 3) 0 = 100.
Proof.
  assert (H : true = true -> 0 < 1 /\ 0 < 100) by (intros _; split; lra).
  split; [exact H|].
  destruct (frequency_axis_shape true 1 100 3 H) as (Hlen & _ & Hrest).
  split; [exact Hlen|].
  destruct Hrest as (_ & Hlast & _); [lia | exact Hlast].
Defined.
End RealAxis.

(** ** Reasoning about the monad *)

Lemma bind_ok {A B} (m : M A) (k : A -> M B) w w' b :
  bind m k w = (w', Ok b) ->
  exists a w1, m w = (w1, Ok a) /\ k a w1 = (w', Ok b).
Proof.
  unfold bind. destruct (m w) as [w1 [a | e]]; intros H.
  - now exists a, w1.
  - discriminate.
Qed.

Lemma bind_eq {A B} (m : M A) (k : A -> M B) w w1 a :
  m w = (w1, Ok a) -> bind m k w = k a w1.
Proof. unfold bind. now intros ->. Qed.

Lemma attr_ok {A} name (f : NA -> option A) w w' a :
  attr name f w = (w', Ok a) -> w' = w /\ f (na w) = Some a.
Proof.
  unfold attr. destruct (f (na w)); intros H; inversion H; auto.
Qed.

Lemma time_ok w w' t : time w = (w', Ok t) -> w' = w /\ t = now w.
Proof. unfold time. intros H. inversion H; auto. Qed.

Lemma get_na_ok w w' n : get_na w = (w', Ok n) -> w' = w /\ n = na w.
Proof. unfold get_na. intros H. inversion H; auto. Qed.

Lemma stable_bind {A B} R (m : M A) (k : A -> M B) :
  preorder R -> stable R m -> (forall a, stable R (k a)) ->
  stable R (bind m k).
Proof.
  intros [Hr Ht] Hm Hk w w' r. unfold bind.
  destruct (m w) as [w1 [a | e]] eqn:E; intros H.
  - eapply Ht; [eapply Hm; eassumption | eapply Hk; eassumption].
  - inversion H; subst. eapply Hm; eassumption.
Qed.

Lemma stable_if {A} R (b : bool) (m1 m2 : M A) :
  stable R m1 -> stable R m2 -> stable R (if b then m1 else m2).
Proof. now destruct b. Qed.

Lemma same_sweep_preorder : preorder same_sweep.
Proof.
  split.
  - intros w. unfold same_sweep. repeat split; reflexivity.
  - intros w1 w2 w3 H12 H23. unfold same_sweep in *.
    decompose [and] H12. decompose [and] H23.
    repeat split; congruence.
Qed.

(** Unfolding the primitives of the monad, in the goal or in a hypothesis,
    and splitting on what a computation inspects. *)
Ltac run :=
  cbv beta iota delta
    [bind ret raise get_na get_iq modify_na modify_iq attr time sleep
     set_na_field getitem rbw amplitude fdiv time_per_point
     iq_set_frequency iq_set_amplitude iq_set_bandwidth iq_logger_info
     log_event when_given load_name find
     iq_set_na_averages as_float to_float np_mul np_int_round fpow2
     Z.ltb Z.compare Z.to_nat nth_error];
  cbn [na iq now slept fst snd].

Ltac run_in H :=
  cbv beta iota delta
    [bind ret raise get_na get_iq modify_na modify_iq attr time sleep
     set_na_field getitem rbw amplitude fdiv time_per_point
     iq_set_frequency iq_set_amplitude iq_set_bandwidth iq_logger_info
     log_event when_given load_name find
     iq_set_na_averages as_float to_float np_mul np_int_round fpow2
     upd_start upd_stop upd_points upd_avg upd__amplitude upd_input
     upd_output_direct upd_acbandwidth upd_sleeptimes upd_logscale
     upd_stabilize upd_maxamplitude upd__setup upd_x upd__na_sleepcycles
     upd__rescale upd_current_point upd_time_last_point upd_iq_frequency
     upd_iq_bandwidth upd_iq_amplitude upd_iq_gain upd_iq_phase
     upd_iq_acbandwidth upd_iq_input upd_iq_output_direct
     upd_iq_output_signal upd_iq_na_averages upd_iq_trace] in H;
  cbn [na iq now slept fst snd
       start stop points avg _amplitude input output_direct acbandwidth
       sleeptimes logscale stabilize maxamplitude _setup x _na_sleepcycles
       _rescale current_point time_last_point iq_frequency iq_bandwidth
       iq_amplitude iq_gain iq_phase iq_acbandwidth iq_input
       iq_output_direct iq_output_signal iq_na_averages iq_trace] in H.

Ltac split_match H :=
  match type of H with
  | context [match ?e with _ => _ end] =>
      lazymatch e with
      | context [match _ with _ => _ end] => fail
      | _ => destruct e eqn:?
      end
  end.

Ltac cases_of H := repeat (split_match H; run_in H; try discriminate).

Ltac finish H :=
  inversion H; subst; clear H; cbn; unfold same_sweep; cbn;
  repeat split; auto.

Ltac norm_index H :=
  try change (0 <? 0)%Z with false in H;
  try change (Z.to_nat 0) with 0%nat in H.

Section Properties.
Context {hw : Demodulator} {fl : FloatLib}.

(** ** The properties [rbw], [time_per_point] and [amplitude] *)

Lemma rbw_eq w b bs :
  iq_bandwidth (iq w) = b :: bs -> rbw w = (w, Ok b).
Proof. intros H. run. rewrite H. reflexivity. Qed.

Lemma time_per_point_eq w b bs :
  iq_bandwidth (iq w) = b :: bs -> Qeq_bool b 0 = false ->
  time_per_point w = (w, Ok (1 / b * (avg (na w) + sleeptimes (na w)))).
Proof.
  intros H Hb. unfold time_per_point.
  rewrite (bind_eq _ _ _ _ _ (rbw_eq _ _ _ H)).
  unfold fdiv. rewrite Hb. reflexivity.
Qed.

Lemma time_per_point_inv w w' tpp :
  time_per_point w = (w', Ok tpp) ->
  w' = w /\
  exists b bs, iq_bandwidth (iq w) = b :: bs /\ Qeq_bool b 0 = false /\
               tpp = 1 / b * (avg (na w) + sleeptimes (na w)).
Proof.
  intros H. unfold time_per_point in H. run_in H. norm_index H.
  cases_of H. inversion H; subst; clear H. split; [reflexivity|].
  change (Z.to_nat 0) with 0%nat in *.
  match goal with
  | E : nth_error ?l 0 = Some _ |- _ =>
      destruct l as [|b0 bs0] eqn:El; [discriminate|]; inversion E; subst
  end.
  do 2 eexists. repeat split; eauto.
Qed.

Lemma Qeq_bool_false a b : ~ a == b -> Qeq_bool a b = false.
Proof.
  intros H. destruct (Qeq_bool a b) eqn:E; trivial.
  apply Qeq_bool_iff in E. contradiction.
Qed.

(** ** [get_current_point] *)

Lemma get_current_point_eq w t r b bs :
  time_last_point (na w) = Some t ->
  _rescale (na w) = Some r ->
  iq_bandwidth (iq w) = b :: bs ->
  Qeq_bool b 0 = false ->
  let tpp := 1 / b * (avg (na w) + sleeptimes (na w)) in
  let w' := paced w (tpp - (now w - t)) in
  let amp := _amplitude (na w) in
  let raw := _nadata (iq w) (now w') in
  get_current_point w =
  (w', Ok (iq_frequency (iq w),
           (if Qeq_bool amp 0 then cscale r raw else cscale (r / amp) raw),
           amp)).
Proof.
  intros Ht Hr Hbw Hb tpp w' amp raw.
  unfold get_current_point.
  rewrite (bind_eq _ _ w w (now w)) by reflexivity.
  rewrite (bind_eq _ _ w w t) by (unfold attr; now rewrite Ht).
  rewrite (bind_eq _ _ _ _ _ (time_per_point_eq _ _ _ Hbw Hb)).
  fold tpp. subst w' raw amp. unfold paced.
  destruct (Qle_bool 0 (tpp - (now w - t))); run.
  all: destruct (Qeq_bool (_amplitude (na w)) 0); cbn [na]; rewrite Hr;
    reflexivity.
Qed.

(** A fetch that returns has found the attributes [setup] creates and a
    bandwidth that is not zero. *)
Lemma get_current_point_inv w w' p :
  get_current_point w = (w', Ok p) ->
  exists t r b bs,
    time_last_point (na w) = Some t /\ _rescale (na w) = Some r /\
    iq_bandwidth (iq w) = b :: bs /\ Qeq_bool b 0 = false.
Proof.
  intros H. unfold get_current_point in H.
  apply bind_ok in H as (ct & w1 & H1 & H).
  apply bind_ok in H as (t & w2 & H2 & H).
  apply bind_ok in H as (tpp & w3 & H3 & H).
  apply time_per_point_inv in H3 as (-> & b & bs & Hbw & Hb & _).
  apply time_ok in H1 as (-> & _).
  apply attr_ok in H2 as (-> & Et).
  destruct (_rescale (na w)) as [r|] eqn:Er.
  - now exists t, r, b, bs.
  - exfalso. run_in H.
    destruct (Qle_bool 0 _) in H; cbn [na iq now slept] in H;
      destruct (Qeq_bool (_amplitude (na w)) 0) in H; cbn [na] in H;
      rewrite Er in H; discriminate.
Qed.

Lemma get_current_point_unarmed w :
  time_last_point (na w) = None ->
  get_current_point w = (w, Err (AttributeError "time_last_point")).
Proof.
  intros H. unfold get_current_point. run. rewrite H. reflexivity.
Qed.

(** ** [prepare_for_next_point] *)

(** What one step of the sweep leaves alone. *)
Lemma prepare_same_sweep y : stable same_sweep (prepare_for_next_point y).
Proof.
  intros w w' r H. unfold prepare_for_next_point in H. run_in H.
  cases_of H. all: finish H.
Qed.

Lemma get_current_point_same_sweep : stable same_sweep get_current_point.
Proof.
  intros w w' r H. unfold get_current_point in H. run_in H.
  cases_of H. all: finish H.
Qed.

(** C2: with stabilization enabled ([stabilize] is a number), the next
    amplitude is computed from the name [y], which is bound neither in
    the method (its argument is [last_normalized_val]) nor in the module:
    the call raises [NameError] and nothing is pushed to the demodulator,
    where the specification has it push
    [target / |last_normalized_val|]. *)
Theorem prepare_for_next_point_stabilized_raises w y target :
  stabilize (na w) = Some target ->
  prepare_for_next_point y w = (w, Err (NameError "y")).
Proof.
  intros H. unfold prepare_for_next_point. run. rewrite H. reflexivity.
Qed.

(** A preparation that returns ran without stabilization; it has not
    slept and has restarted the dwell clock. *)
Lemma prepare_ok_inv y w w' :
  prepare_for_next_point y w = (w', Ok tt) ->
  stabilize (na w) = None /\
  now w' = now w /\ slept w' = slept w /\
  time_last_point (na w') = Some (now w').
Proof.
  intros H. unfold prepare_for_next_point in H. run_in H.
  cases_of H. all: inversion H; subst; clear H; cbn; auto.
Qed.

(** X13: without stabilization, whatever [prepare_for_next_point] goes on
    to do or raise, the amplitude it pushes to the demodulator is the
    stored amplitude, replaced by [maxamplitude] only when it is greater:
    the pushed value is never greater than [maxamplitude]. *)
Lemma prepare_pushes y w w' r :
  stabilize (na w) = None ->
  prepare_for_next_point y w = (w', r) ->
  let a := _amplitude (na w) in
  let pushed := if Qgtb a (maxamplitude (na w)) then maxamplitude (na w)
                else a in
  iq_amplitude (iq w') = quant_amplitude pushed /\
  In (SetAmplitude pushed) (iq_trace (iq w')) /\
  pushed <= maxamplitude (na w).
Proof.
  intros Hs H a pushed.
  assert (Hle : pushed <= maxamplitude (na w)).
  { subst pushed a. unfold Qgtb.
    destruct (Qle_bool _ _) eqn:E; cbn; [now apply Qle_bool_iff|].
    apply Qle_refl. }
  unfold prepare_for_next_point in H. run_in H. rewrite Hs in H.
  run_in H. fold a in H. fold pushed in H.
  cases_of H.
  all: inversion H; subst; clear H; cbn; repeat split; trivial;
    rewrite ?in_app_iff; cbn; auto.
Qed.

(** ** [values] *)

Ltac stab :=
  repeat first
    [ apply prepare_same_sweep
    | apply get_current_point_same_sweep
    | apply stable_bind; [apply same_sweep_preorder | | intro]
    | apply stable_if
    | match goal with
      | |- stable _ (match ?e with _ => _ end) => destruct e
      end
    | (let H := fresh "H" in
       intros ? ? ? H; run_in H; cases_of H; finish H) ].

Lemma loop_iteration_same_sweep : stable same_sweep loop_iteration.
Proof. unfold loop_iteration. stab. Qed.

Lemma except_clause_same_sweep {A} e :
  stable same_sweep (except_clause (A := A) e).
Proof. unfold except_clause. stab. Qed.

(** The [finally] clause on an analyzer that has an axis. *)
Lemma finally_clause_eq w x0 rest :
  x (na w) = Some (x0 :: rest) ->
  exists w',
    finally_clause w = (w', Ok tt) /\
    iq_amplitude (iq w') = quant_amplitude 0 /\
    iq_frequency (iq w') = quant_frequency x0 /\
    iq_trace (iq w') = iq_trace (iq w) ++ [SetAmplitude 0; SetFrequency x0].
Proof.
  intros Hx. unfold finally_clause. run. rewrite Hx. cbn.
  eexists. split; [reflexivity|]. cbn.
  rewrite <- app_assoc. auto.
Qed.

Lemma leave_try_cleanup r w w' g' r' x0 rest :
  x (na w) = Some (x0 :: rest) ->
  leave_try r w = (w', g', r') ->
  g' = GenClosed /\ r' = r /\
  iq_amplitude (iq w') = quant_amplitude 0 /\
  iq_frequency (iq w') = quant_frequency x0 /\
  iq_trace (iq w') = iq_trace (iq w) ++ [SetAmplitude 0; SetFrequency x0].
Proof.
  intros Hx H. unfold leave_try in H.
  destruct (finally_clause_eq w x0 rest Hx) as (w1 & E & Ha & Hf & Ht).
  rewrite E in H. inversion H; subst. auto.
Qed.

Lemma handle_cleanup e w w' g' r' x0 rest :
  x (na w) = Some (x0 :: rest) ->
  handle e w = (w', g', r') ->
  g' = GenClosed /\ r' = Err e /\
  iq_amplitude (iq w') = quant_amplitude 0 /\
  iq_frequency (iq w') = quant_frequency x0 /\
  exists tr,
    iq_trace (iq w') = iq_trace (iq w) ++ tr ++
                       [SetAmplitude 0; SetFrequency x0].
Proof.
  intros Hx H. unfold handle in H.
  destruct (except_clause e w) as [w1 [[]|e1]] eqn:E.
  - unfold except_clause in E. run_in E. discriminate.
  - assert (Hx1 : x (na w1) = Some (x0 :: rest)).
    { apply except_clause_same_sweep in E. unfold same_sweep in E.
      decompose [and] E. congruence. }
    assert (He : e1 = e /\ iq_trace (iq w1) = iq_trace (iq w) ++
              [LogInfo "NA output turned off due to an exception"]).
    { unfold except_clause in E. run_in E. inversion E; subst. cbn. auto. }
    destruct He as [-> Htr].
    destruct (leave_try_cleanup _ _ _ _ _ _ _ Hx1 H)
      as (Hg & Hr & Ha & Hf & Ht).
    repeat split; trivial.
    eexists. rewrite Ht, Htr, <- app_assoc. reflexivity.
Qed.

(** The body of the generator leaves the axis alone. *)
Lemma loop_iteration_axis w w' r :
  loop_iteration w = (w', r) -> x (na w') = x (na w).
Proof.
  intros H. apply loop_iteration_same_sweep in H.
  unfold same_sweep in H. decompose [and] H. assumption.
Qed.

Lemma loop_iteration_trace w w' r :
  loop_iteration w = (w', r) ->
  exists tr, iq_trace (iq w') = iq_trace (iq w) ++ tr.
Proof.
  revert w w' r.
  change (stable (fun w w' =>
            exists tr, iq_trace (iq w') = iq_trace (iq w) ++ tr)
            loop_iteration).
  assert (P : preorder (fun w w' =>
            exists tr, iq_trace (iq w') = iq_trace (iq w) ++ tr)).
  { split.
    - intros w. exists []. now rewrite app_nil_r.
    - intros w1 w2 w3 [t1 H1] [t2 H2]. exists (t1 ++ t2).
      now rewrite H2, H1, app_assoc. }
  unfold loop_iteration, get_current_point, prepare_for_next_point.
  repeat first
    [ apply stable_bind; [exact P | | intro]
    | apply stable_if
    | match goal with
      | |- stable _ (match ?e with _ => _ end) => destruct e
      end
    | (let H := fresh "H" in
       intros ? ? ? H; run_in H; cases_of H;
       inversion H; subst; clear H; cbn;
       first [ exists []; now rewrite app_nil_r
             | eexists; reflexivity ]) ].
Qed.

(** A suspended generator stays suspended, with its axis, or closes. *)
Lemma values_step_suspended a w w' g' r :
  values_step a GenSuspended w = (w', g', r) ->
  (g' = GenSuspended /\ x (na w') = x (na w)) \/ g' = GenClosed.
Proof.
  assert (Hl : forall r0, leave_try r0 w = (w', g', r) -> g' = GenClosed).
  { intros r0 H. unfold leave_try in H.
    destruct (finally_clause w) as [w1 [[]|e1]]; now inversion H. }
  assert (Hh : forall e w0, handle e w0 = (w', g', r) -> g' = GenClosed).
  { intros e w0 H. unfold handle, leave_try in H.
    destruct (except_clause e w0) as [w1 [[]|e1]];
      destruct (finally_clause w1) as [w2 [[]|e2]]; now inversion H. }
  destruct a; unfold values_step; intros H.
  - unfold resume in H.
    destruct (loop_iteration w) as [w1 [[p|]|e]] eqn:E.
    + inversion H; subst. left. split; trivial.
      eapply loop_iteration_axis; eassumption.
    + right. unfold leave_try in H.
      destruct (finally_clause w1) as [w2 [[]|e2]]; now inversion H.
    + right. eapply Hh; eassumption.
  - right. eapply Hl; eassumption.
  - right. eapply Hh; eassumption.
Qed.

(** A finished generator runs no code. *)
Lemma run_values_closed script w :
  exists rs, run_values script GenClosed w = (w, GenClosed, rs).
Proof.
  induction script as [|a script [rs IH]]; [now exists []|].
  destruct a; cbn; rewrite IH; eexists; reflexivity.
Qed.

(** Abandoning a started generator always finishes it. *)
Lemma close_finishes g w :
  snd (fst (values_step Close g w)) = GenClosed.
Proof.
  destruct g; cbn; trivial. unfold leave_try.
  destruct (finally_clause w) as [w1 [[]|e1]]; reflexivity.
Qed.

(** ** Pacing and normalization of a fetched point *)

(** C3: on an armed analyzer whose demodulator reports the bandwidth
    [b], not zero, [time_per_point] is [(avg + sleeptimes) / b];
    [get_current_point] returns without error, and with
    [elapsed = now - time_last_point] it sleeps exactly
    [time_per_point - elapsed] when that is not negative and does not
    sleep at all otherwise.  The bandwidth is the one read back from the
    demodulator: after the [rbw] setter is given [v], it is what the
    hardware made of [v]. *)
Theorem get_current_point_pacing w t r b bs :
  time_last_point (na w) = Some t ->
  _rescale (na w) = Some r ->
  iq_bandwidth (iq w) = b :: bs ->
  ~ b == 0 ->
  let tpp := 1 / b * (avg (na w) + sleeptimes (na w)) in
  let elapsed := now w - t in
  let remaining := tpp - elapsed in
  time_per_point w = (w, Ok tpp) /\
  tpp == (avg (na w) + sleeptimes (na w)) / b /\
  (forall v, rbw (fst (rbw_setter (RbwScalar v) w))
             = (fst (rbw_setter (RbwScalar v) w), Ok (quant_bandwidth v))) /\
  exists w' p,
    get_current_point w = (w', Ok p) /\
    na w' = na w /\ iq w' = iq w /\
    (0 <= remaining ->
       slept w' = slept w ++ [remaining] /\ now w' = now w + remaining) /\
    (remaining < 0 -> slept w' = slept w /\ now w' = now w).
Proof.
  intros Ht Hr Hbw Hb0 tpp elapsed remaining.
  pose proof (Qeq_bool_false _ _ Hb0) as Hb.
  split; [now apply time_per_point_eq with (bs := bs)|].
  split; [subst tpp; field; exact Hb0|].
  split; [intros v; reflexivity|].
  pose proof (get_current_point_eq w t r b bs Ht Hr Hbw Hb) as E.
  cbv zeta in E. fold tpp elapsed remaining in E.
  eexists _, _. split; [exact E|].
  unfold paced. destruct (Qle_bool 0 remaining) eqn:Hq; cbn.
  - split; [reflexivity|]. split; [reflexivity|]. split.
    + intros _. split; reflexivity.
    + intros Hneg. exfalso.
      apply Qle_bool_iff in Hq. eapply Qlt_not_le; eassumption.
  - split; [reflexivity|]. split; [reflexivity|]. split.
    + intros Hpos. exfalso. apply Qle_bool_iff in Hpos. congruence.
    + intros _. split; reflexivity.
Qed.

(** C5: on an armed analyzer the fetch does not raise; the amplitude it
    returns is the stored one; when that is exactly zero the response
    is the raw sample times the rescaling factor, with no division, and
    otherwise it is that product divided by the amplitude. *)
Theorem get_current_point_normalization w t r b bs :
  time_last_point (na w) = Some t ->
  _rescale (na w) = Some r ->
  iq_bandwidth (iq w) = b :: bs ->
  ~ b == 0 ->
  let amp := _amplitude (na w) in
  exists w' y,
    get_current_point w = (w', Ok (iq_frequency (iq w), y, amp)) /\
    let raw := _nadata (iq w) (now w') in
    (amp == 0 -> y = cscale r raw) /\
    (~ amp == 0 -> y = cscale (r / amp) raw /\
                   ceq y (cdiv (cscale r raw) amp)).
Proof.
  intros Ht Hr Hbw Hb0 amp.
  pose proof (Qeq_bool_false _ _ Hb0) as Hb.
  pose proof (get_current_point_eq w t r b bs Ht Hr Hbw Hb) as E.
  cbv zeta in E. fold amp in E.
  eexists _, _. split; [exact E|]. cbv zeta.
  destruct (Qeq_bool amp 0) eqn:Hz.
  - apply Qeq_bool_iff in Hz. split; [reflexivity|].
    intros Hn. contradiction.
  - split.
    + intros Hn. apply Qeq_bool_iff in Hn. congruence.
    + intros Hn. split; [reflexivity|].
      unfold ceq, cdiv, cscale. cbn [fst snd].
      split; field; exact Hn.
Qed.

(** ** The [amplitude] property *)

(** C10: the setter pushes the requested value to the demodulator, then
    stores what the demodulator reports; reading the property afterwards
    returns that accepted value and changes nothing, so every later read
    returns it as well. *)
Theorem amplitude_setter_reads_back (val : Q) (w : World) :
  exists w',
    amplitude_setter val w = (w', Ok tt) /\
    iq_trace (iq w') = iq_trace (iq w) ++ [SetAmplitude val] /\
    iq_amplitude (iq w') = quant_amplitude val /\
    _amplitude (na w') = iq_amplitude (iq w') /\
    amplitude w' = (w', Ok (quant_amplitude val)).
Proof.
  eexists. split; [reflexivity|]. cbn. auto.
Qed.

(** ** Before [setup] *)

Lemma fresh_unarmed d t :
  _setup (na (fresh d t)) = false /\
  time_last_point (na (fresh d t)) = None /\
  current_point (na (fresh d t)) = None /\
  x (na (fresh d t)) = None.
Proof. repeat split; reflexivity. Qed.

(** C8: on a freshly constructed analyzer, whose [_setup] flag is still
    false, fetching a point raises [AttributeError] for the attribute
    [time_last_point], and asking the generator for a value raises
    [AttributeError] as well; [NotReadyError] is not raised. *)
Theorem fetch_before_setup (d : IQ) (t : Q) :
  let w := fresh d t in
  _setup (na w) = false /\
  get_current_point w = (w, Err (AttributeError "time_last_point")) /\
  AttributeError "time_last_point" <> NotReadyError /\
  snd (values_step Next values w) = Err (AttributeError "x").
Proof.
  intros w. split; [reflexivity|]. split.
  - apply get_current_point_unarmed. reflexivity.
  - split; [discriminate|]. reflexivity.
Qed.

(** ** Zero-span sweeps *)

Lemma paced_waits w t tpp :
  t + tpp <= now (paced w (tpp - (now w - t))).
Proof.
  unfold paced. destruct (Qle_bool 0 (tpp - (now w - t))) eqn:E; cbn.
  - apply Qle_lteq. right. ring.
  - apply Qlt_le_weak.
    destruct (Qlt_le_dec (t + tpp) (now w)) as [Hlt | Hle]; trivial.
    exfalso. assert (Hq : Qle_bool 0 (tpp - (now w - t)) = true).
    { apply Qle_bool_iff. apply Qle_minus_iff in Hle.
      setoid_replace (tpp - (now w - t)) with (t + tpp + - now w) by ring.
      exact Hle. }
    congruence.
Qed.

(** What a step of the generator that yields has done. *)
Lemma loop_iteration_yield w w' xf y amp :
  loop_iteration w = (w', Ok (Some (xf, y, amp))) ->
  exists t b bs,
    time_last_point (na w) = Some t /\
    iq_bandwidth (iq w) = b :: bs /\ Qeq_bool b 0 = false /\
    now w' = now (paced w (1 / b * (avg (na w) + sleeptimes (na w))
                           - (now w - t))) /\
    time_last_point (na w') = Some (now w') /\
    xf = (if Qeq_bool (start (na w)) (stop (na w)) then now w'
          else iq_frequency (iq w)) /\
    same_sweep w w'.
Proof.
  intros H. pose proof (loop_iteration_same_sweep _ _ _ H) as Hsame.
  unfold loop_iteration in H.
  apply bind_ok in H as (cp & w1 & H1 & H).
  apply attr_ok in H1 as (-> & Hcp).
  apply bind_ok in H as (n & w1 & H1 & H).
  apply get_na_ok in H1 as (-> & ->).
  destruct (cp <? points (na w))%Z; [|discriminate].
  apply bind_ok in H as ([[xf0 y0] amp0] & w1 & Hget & H).
  apply bind_ok in H as (xf1 & w2 & Hxf & H).
  apply bind_ok in H as ([] & w3 & Hprep & H).
  inversion H; subst; clear H.
  destruct (get_current_point_inv _ _ _ Hget) as (t & r & b & bs & Ht & Hr & Hbw & Hb).
  pose proof (get_current_point_eq w t r b bs Ht Hr Hbw Hb) as E.
  cbv zeta in E. rewrite E in Hget. inversion Hget; subst; clear Hget.
  apply prepare_ok_inv in Hprep as (_ & Hnow & _ & Htlp).
  exists t, b, bs.
  assert (Hw2 : w2 = paced w (1 / b * (avg (na w) + sleeptimes (na w))
                              - (now w - t)) /\
                xf = if Qeq_bool (start (na w)) (stop (na w))
                     then now w2 else iq_frequency (iq w)).
  { destruct (Qeq_bool (start (na w)) (stop (na w)));
      inversion Hxf; subst; auto. }
  destruct Hw2 as [Hw2 Hxf2].
  do 3 (split; [assumption|]).
  split; [now rewrite Hnow, Hw2|].
  split; [assumption|].
  split; [now rewrite Hnow|assumption].
Qed.

Lemma resume_cases w w1 g1 r :
  resume w = (w1, g1, r) ->
  (exists p, loop_iteration w = (w1, Ok (Some p)) /\
             g1 = GenSuspended /\ r = Ok (Yield p)) \/
  (g1 = GenClosed /\ stamps [r] = []).
Proof.
  unfold resume, handle, leave_try. intros H.
  destruct (loop_iteration w) as [w2 [[p|]|e]] eqn:E.
  - left. exists p. now inversion H.
  - right. destruct (finally_clause w2) as [w3 [[]|e3]];
      inversion H; subst; auto.
  - right. destruct (except_clause e w2) as [w3 [[]|e3]];
      destruct (finally_clause w3) as [w4 [[]|e4]];
      inversion H; subst; auto.
Qed.

Lemma run_values_closed_stamps script w w' g' rs :
  run_values script GenClosed w = (w', g', rs) -> stamps rs = [].
Proof.
  revert w w' g' rs.
  induction script as [|a script IH]; intros w w' g' rs H.
  - now inversion H.
  - cbn [run_values] in H.
    destruct a; cbn [values_step] in H;
      destruct (run_values script GenClosed w) as [[w2 g2] rs2] eqn:E;
      inversion H; subst; cbn; eapply IH; eassumption.
Qed.

Lemma stamps_cons r rs : stamps (r :: rs) = (stamps [r] ++ stamps rs)%list.
Proof. destruct r as [[[[xf y] amp]| |]|e]; reflexivity. Qed.

Lemma zero_span_stamps_sorted k : forall g w w' g' rs tpp,
  Qeq_bool (start (na w)) (stop (na w)) = true ->
  time_per_point w = (w, Ok tpp) ->
  0 < tpp ->
  run_values (repeat Next k) g w = (w', g', rs) ->
  StronglySorted Qlt (stamps rs) /\
  forall tl, time_last_point (na w) = Some tl ->
             Forall (fun s => tl + tpp <= s) (stamps rs).
Proof.
  induction k as [|k IH]; intros g w w' g' rs tpp Hzs Htpp Hpos H.
  - inversion H; subst. cbn. split; [constructor|]. intros; constructor.
  - cbn [repeat run_values] in H.
    destruct (values_step Next g w) as [[w1 g1] r] eqn:E.
    destruct (run_values (repeat Next k) g1 w1) as [[w2 g2] rs2] eqn:E2.
    inversion H; subst; clear H. rewrite stamps_cons.
    assert (Hclosed : g1 = GenClosed /\ stamps [r] = [] ->
              StronglySorted Qlt (stamps [r] ++ stamps rs2) /\
              forall tl, time_last_point (na w) = Some tl ->
                Forall (fun s => tl + tpp <= s) (stamps [r] ++ stamps rs2)).
    { intros [-> ->]. rewrite (run_values_closed_stamps _ _ _ _ _ E2).
      cbn. split; [constructor|]. intros; constructor. }
    assert (Hres : resume w = (w1, g1, r) ->
              StronglySorted Qlt (stamps [r] ++ stamps rs2) /\
              forall tl, time_last_point (na w) = Some tl ->
                Forall (fun s => tl + tpp <= s) (stamps [r] ++ stamps rs2)).
    { intros Hr. apply resume_cases in Hr as [(p & Hl & -> & ->) | Hc];
        [|now apply Hclosed].
      destruct p as [[xf y] amp].
      destruct (loop_iteration_yield _ _ _ _ _ Hl)
        as (t & b & bs & Ht & Hbw & Hb & Hnow & Htlp & Hxf & Hsame).
      rewrite Hzs in Hxf.
      apply time_per_point_inv in Htpp as (_ & b' & bs' & Hbw' & _ & ->).
      rewrite Hbw in Hbw'. inversion Hbw'; subst b' bs'; clear Hbw'.
      unfold same_sweep in Hsame.
      destruct Hsame as (Hst & Hsp & _ & Hav & Hsl & _ & _ & _ & _ & _ & Hb1).
      set (tpp := 1 / b * (avg (na w) + sleeptimes (na w))) in *.
      assert (Htpp1 : time_per_point w1 = (w1, Ok tpp)).
      { rewrite (time_per_point_eq w1 b bs); [|congruence|assumption].
        subst tpp. now rewrite Hav, Hsl. }
      assert (Hzs1 : Qeq_bool (start (na w1)) (stop (na w1)) = true)
        by now rewrite Hst, Hsp.
      destruct (IH _ _ _ _ _ _ Hzs1 Htpp1 Hpos E2) as [Hsorted Hall].
      specialize (Hall _ Htlp). cbn [stamps app].
      assert (Hwait : t + tpp <= xf)
        by (rewrite Hxf, Hnow; apply paced_waits).
      split.
      - constructor; [assumption|].
        eapply Forall_impl; [|exact Hall]. cbn. intros s Hs.
        eapply Qlt_le_trans; [|exact Hs]. rewrite <- Hxf.
        rewrite <- (Qplus_0_r xf) at 1.
        apply Qplus_lt_r. assumption.
      - intros tl Htl. rewrite Ht in Htl. inversion Htl; subst tl.
        constructor; [assumption|].
        eapply Forall_impl; [|exact Hall]. cbn. intros s Hs.
        eapply Qle_trans; [exact Hwait|].
        eapply Qle_trans; [|exact Hs]. rewrite <- Hxf.
        rewrite <- (Qplus_0_r xf) at 1.
        apply Qplus_le_r. now apply Qlt_le_weak. }
    destruct g; cbn [values_step] in E; auto.
    inversion E; subst. apply Hclosed. auto.
Qed.

(** C7: in a sweep with [start == stop], the first element of a yielded
    triple is the clock value at which the point was read (it is also the
    value the dwell clock restarts from), not the frequency of the
    demodulator; with a positive time per point, the first elements of
    the triples yielded by successive [next] calls increase strictly. *)
Theorem zero_span_timestamps k g w w' g' rs tpp :
  Qeq_bool (start (na w)) (stop (na w)) = true ->
  time_per_point w = (w, Ok tpp) ->
  0 < tpp ->
  run_values (repeat Next k) g w = (w', g', rs) ->
  StronglySorted Qlt (stamps rs) /\
  (forall w1 g1 xf y amp,
     values_step Next g w = (w1, g1, Ok (Yield (xf, y, amp))) ->
     xf = now w1 /\ time_last_point (na w1) = Some xf).
Proof.
  intros Hzs Htpp Hpos H. split.
  - eapply zero_span_stamps_sorted; eassumption.
  - intros w1 g1 xf y amp E.
    assert (Hr : resume w = (w1, g1, Ok (Yield (xf, y, amp)))).
    { destruct g; cbn [values_step] in E; trivial. discriminate. }
    apply resume_cases in Hr as [(p & Hl & _ & Hp) | [_ Hc]];
      [|discriminate].
    inversion Hp; subst p.
    destruct (loop_iteration_yield _ _ _ _ _ Hl)
      as (t & b & bs & _ & _ & _ & _ & Htlp & Hxf & _).
    rewrite Hzs in Hxf. subst xf. auto.
Qed.

(** ** [setup] *)

Lemma when_given_set {V B} (upd : V -> NA -> NA) (o : option V)
      (k : unit -> M B) n d t s :
  bind (when_given o (set_na_field upd)) k (mkWorld n d t s)
  = k tt (mkWorld (opt_upd upd o n) d t s).
Proof. destruct o; reflexivity. Qed.

Lemma when_given_last {V} (upd : V -> NA -> NA) (o : option V) n d t s :
  when_given o (set_na_field upd) (mkWorld n d t s)
  = (mkWorld (opt_upd upd o n) d t s, Ok tt).
Proof. destruct o; reflexivity. Qed.

Lemma when_given_rbw {B} (o : option rbw_arg) (k : unit -> M B) n d t s :
  bind (when_given o rbw_setter) k (mkWorld n d t s)
  = k tt (mkWorld n
            match o with
            | Some val =>
                log_event (SetBandwidth (rbw_list val))
                  (upd_iq_bandwidth (map quant_bandwidth (rbw_list val)) d)
            | None => d
            end t s).
Proof. destruct o as [[v|l]|]; reflexivity. Qed.

Lemma when_given_amplitude {B} (o : option Q) (k : unit -> M B) n d t s :
  bind (when_given o amplitude_setter) k (mkWorld n d t s)
  = k tt (mkWorld
            (opt_upd upd__amplitude (option_map quant_amplitude o) n)
            match o with
            | Some v =>
                log_event (SetAmplitude v)
                  (upd_iq_amplitude (quant_amplitude v) d)
            | None => d
            end t s).
Proof. destruct o; reflexivity. Qed.

Lemma merge_options_eq o n d t s :
  merge_options o (mkWorld n d t s)
  = (mkWorld (merged_na o n) (merged_iq o d) t s, Ok tt).
Proof.
  unfold merge_options, merged_na, merged_iq.
  rewrite !when_given_set, when_given_rbw, when_given_set,
    when_given_amplitude, !when_given_set, when_given_last.
  reflexivity.
Qed.

Lemma proj_opt_upd {V T} (f : NA -> T) (upd : V -> NA -> NA) o n :
  (forall v m, f (upd v m) = f m) -> f (opt_upd upd o n) = f n.
Proof. intros H. destruct o; cbn; auto. Qed.

Lemma proj_opt_upd_own {V} (f : NA -> V) (upd : V -> NA -> NA) o n :
  (forall v m, f (upd v m) = v) -> f (opt_upd upd o n) = given o (f n).
Proof. intros H. destruct o; cbn; auto. Qed.

Ltac merged_field f :=
  unfold merged_na;
  repeat (rewrite (proj_opt_upd f) by reflexivity);
  rewrite (proj_opt_upd_own f) by reflexivity;
  repeat (rewrite (proj_opt_upd f) by reflexivity);
  reflexivity.

Lemma merged_na_fields o n :
  let m := merged_na o n in
  start m = given (o_start o) (start n) /\
  stop m = given (o_stop o) (stop n) /\
  points m = given (o_points o) (points n) /\
  avg m = given (o_avg o) (avg n) /\
  _amplitude m
    = given (option_map quant_amplitude (o_amplitude o)) (_amplitude n) /\
  input m = given (o_input o) (input n) /\
  output_direct m = given (o_output_direct o) (output_direct n) /\
  acbandwidth m = given (o_acbandwidth o) (acbandwidth n) /\
  sleeptimes m = given (o_sleeptimes o) (sleeptimes n) /\
  logscale m = given (o_logscale o) (logscale n) /\
  stabilize m = given (o_stabilize o) (stabilize n) /\
  maxamplitude m = given (o_maxamplitude o) (maxamplitude n).
Proof.
  cbv zeta.
  split; [merged_field start|]. split; [merged_field stop|].
  split; [merged_field points|]. split; [merged_field avg|].
  split; [merged_field _amplitude|]. split; [merged_field input|].
  split; [merged_field output_direct|]. split; [merged_field acbandwidth|].
  split; [merged_field sleeptimes|]. split; [merged_field logscale|].
  split; [merged_field stabilize|]. merged_field maxamplitude.
Qed.

(** Arming leaves the persisted configuration of the object alone. *)
Lemma arm_same_config : stable same_config arm.
Proof.
  intros w w' r H. unfold arm, make_axis, iq_setup in H. run_in H.
  cases_of H.
  all: inversion H; subst; clear H; cbn; unfold same_config; cbn;
    repeat split; reflexivity.
Qed.

(** Arming writes back the bandwidth it has read: the first bandwidth
    is unchanged when the hardware accepts its own values as they are. *)
Lemma arm_bandwidth w w' r :
  arm w = (w', r) ->
  Forall (fun b => quant_bandwidth b = b) (iq_bandwidth (iq w)) ->
  hd_error (iq_bandwidth (iq w')) = hd_error (iq_bandwidth (iq w)).
Proof.
  intros H Hq. unfold arm, make_axis, iq_setup in H. run_in H.
  cases_of H.
  all: inversion H; subst; clear H; cbn; try reflexivity.
  all: match goal with
       | E : nth_error ?l _ = Some _ |- _ = hd_error ?l =>
           change (Z.to_nat 0) with 0%nat in E;
           destruct l as [|b bs]; [discriminate|];
           cbn in E; inversion E; subst; clear E
       end.
  all: inversion Hq; subst; cbn; f_equal; assumption.
Qed.

Lemma setup_eq o n d t s :
  setup o (mkWorld n d t s)
  = arm (mkWorld (merged_na o n) (merged_iq o d) t s).
Proof.
  unfold setup, bind. now rewrite merge_options_eq.
Qed.

Lemma merged_iq_bandwidth o d :
  iq_bandwidth (merged_iq o d)
  = given (option_map (fun val => map quant_bandwidth (rbw_list val))
                      (o_rbw o))
          (iq_bandwidth d).
Proof.
  unfold merged_iq.
  destruct (o_rbw o) as [val|]; destruct (o_amplitude o); reflexivity.
Qed.

(** C9: whatever [setup] returns or raises, each persisted field of the
    object whose option is [None] keeps its value and each field whose
    option is given holds that option -- for [amplitude], what the
    demodulator made of it.  The bandwidth, which is kept in the
    demodulator, is left alone by the merge when [rbw] is [None]; once
    the demodulator is armed its first stage is still the old one, or the
    given one, provided the hardware accepts a value it has reported
    as it is. *)
Theorem setup_partial_update (o : options) (w : World) :
  let w' := fst (setup o w) in
  start (na w') = given (o_start o) (start (na w)) /\
  stop (na w') = given (o_stop o) (stop (na w)) /\
  points (na w') = given (o_points o) (points (na w)) /\
  avg (na w') = given (o_avg o) (avg (na w)) /\
  _amplitude (na w')
    = given (option_map quant_amplitude (o_amplitude o))
            (_amplitude (na w)) /\
  input (na w') = given (o_input o) (input (na w)) /\
  output_direct (na w') = given (o_output_direct o) (output_direct (na w)) /\
  acbandwidth (na w') = given (o_acbandwidth o) (acbandwidth (na w)) /\
  sleeptimes (na w') = given (o_sleeptimes o) (sleeptimes (na w)) /\
  logscale (na w') = given (o_logscale o) (logscale (na w)) /\
  stabilize (na w') = given (o_stabilize o) (stabilize (na w)) /\
  maxamplitude (na w') = given (o_maxamplitude o) (maxamplitude (na w)) /\
  iq_bandwidth (iq (fst (merge_options o w)))
    = given (option_map (fun val => map quant_bandwidth (rbw_list val))
                        (o_rbw o))
            (iq_bandwidth (iq w)) /\
  ((forall v, quant_bandwidth (quant_bandwidth v) = quant_bandwidth v) ->
   Forall (fun b => quant_bandwidth b = b) (iq_bandwidth (iq w)) ->
   hd_error (iq_bandwidth (iq w'))
     = given (option_map
                (fun val => hd_error (map quant_bandwidth (rbw_list val)))
                (o_rbw o))
             (hd_error (iq_bandwidth (iq w)))).
Proof.
  destruct w as [n d t s]. cbv zeta.
  rewrite setup_eq, merge_options_eq. cbn [fst na iq].
  destruct (arm (mkWorld (merged_na o n) (merged_iq o d) t s))
    as [w' r] eqn:E.
  cbn [fst].
  pose proof (arm_same_config _ _ _ E) as Hcfg.
  unfold same_config in Hcfg. cbn [na] in Hcfg.
  destruct (merged_na_fields o n)
    as (F1 & F2 & F3 & F4 & F5 & F6 & F7 & F8 & F9 & F10 & F11 & F12).
  destruct Hcfg
    as (C1 & C2 & C3 & C4 & C5 & C6 & C7 & C8 & C9 & C10 & C11 & C12).
  do 12 (split; [congruence|]).
  split; [apply merged_iq_bandwidth|].
  intros Hidem Hfix.
  rewrite (arm_bandwidth _ _ _ E); cbn [iq]; rewrite merged_iq_bandwidth.
  - destruct (o_rbw o); reflexivity.
  - destruct (o_rbw o) as [val|]; cbn [given option_map]; trivial.
    apply Forall_forall. intros b Hb.
    apply in_map_iff in Hb as (v & <- & _). apply Hidem.
Qed.

(** ** Saturation of the amplitude *)

(** The preventive saturation of [setup] yields a value between 0 and
    the absolute value of [maxamplitude]. *)
Lemma saturate_bounds a m :
  0 <= saturate a m /\ saturate a m <= Qabs m.
Proof.
  unfold saturate, Qgtb.
  destruct (Qle_bool (Qabs a) (Qabs m)) eqn:E; cbn.
  - apply Qle_bool_iff in E. split; [apply Qabs_nonneg | exact E].
  - split; [apply Qabs_nonneg | apply Qle_refl].
Qed.

(** When [setup] returns, the amplitude it has pushed is the saturated
    one. *)
Lemma arm_pushes_saturated w w' :
  arm w = (w', Ok tt) ->
  iq_amplitude (iq w')
  = quant_amplitude (saturate (_amplitude (na w)) (maxamplitude (na w))).
Proof.
  intros H. unfold arm, make_axis, iq_setup in H. run_in H.
  cases_of H. all: inversion H; subst; clear H; reflexivity.
Qed.

(** ** [curve] returns *)

Lemma prepare_advances y w w' :
  prepare_for_next_point y w = (w', Ok tt) ->
  exists cp, current_point (na w) = Some cp /\
             current_point (na w') = Some (cp + 1)%Z /\
             points (na w') = points (na w).
Proof.
  intros H. unfold prepare_for_next_point in H. run_in H.
  cases_of H. all: inversion H; subst; clear H; cbn; eauto.
Qed.

Lemma loop_iteration_advances w w' p :
  loop_iteration w = (w', Ok (Some p)) ->
  exists cp, current_point (na w) = Some cp /\ (cp < points (na w))%Z /\
             current_point (na w') = Some (cp + 1)%Z /\
             points (na w') = points (na w).
Proof.
  intros H. unfold loop_iteration in H.
  apply bind_ok in H as (cp & w1 & H1 & H).
  apply attr_ok in H1 as (-> & Hcp).
  apply bind_ok in H as (n & w1 & H1 & H).
  apply get_na_ok in H1 as (-> & ->).
  destruct (cp <? points (na w))%Z eqn:Hlt; [|discriminate].
  apply Z.ltb_lt in Hlt.
  apply bind_ok in H as ([[xf0 y0] amp0] & w1 & Hget & H).
  apply bind_ok in H as (xf1 & w2 & Hxf & H).
  apply bind_ok in H as ([] & w3 & Hprep & H).
  inversion H; subst; clear H.
  destruct (get_current_point_inv _ _ _ Hget)
    as (t & r & b & bs & Ht & Hr & Hbw & Hb).
  pose proof (get_current_point_eq w t r b bs Ht Hr Hbw Hb) as E.
  cbv zeta in E. rewrite E in Hget. inversion Hget; subst; clear Hget.
  assert (Hna : na w2 = na w).
  { destruct (Qeq_bool (start (na w)) (stop (na w)));
      inversion Hxf; subst; unfold paced;
      destruct (Qle_bool 0 _); reflexivity. }
  apply prepare_advances in Hprep as (cp' & Hc & Hc' & Hp).
  rewrite Hna in Hc, Hp. rewrite Hcp in Hc. inversion Hc; subst cp'.
  exists cp. auto.
Qed.

(** The loop of [curve] ends within one step more than the number of
    points that remain. *)
Lemma for_values_returns fuel : forall g index acc w,
  (0 < fuel)%nat ->
  (forall cp, current_point (na w) = Some cp ->
              (Z.to_nat (points (na w) - cp) < fuel)%nat) ->
  exists w' r, for_values fuel g index acc w = (w', Some r).
Proof.
  induction fuel as [|fuel IH]; intros g index acc w Hpos Hm; [lia|].
  cbn [for_values].
  destruct (values_step Next g w) as [[w1 g1] r] eqn:E.
  assert (Hother : (forall p, r <> Ok (Yield p)) ->
            exists w' r',
              match r with
              | Ok (Yield (xf, y, amp)) =>
                  let '(xs, ys, amps) := acc in
                  match setitem xs index xf, setitem ys index y,
                        setitem amps index amp with
                  | Some xs', Some ys', Some amps' =>
                      for_values fuel g1 (S index) (xs', ys', amps') w1
                  | _, _, _ =>
                      match values_step Close g1 w1 with
                      | (w2, _, Err e) => (w2, Some (Err e))
                      | (w2, _, Ok _) => (w2, Some (Err IndexError))
                      end
                  end
              | Ok _ => (w1, Some (Ok acc))
              | Err e => (w1, Some (Err e))
              end = (w', Some r')).
  { intros Hn. destruct r as [[p| |]|e]; try (eexists _, _; reflexivity).
    exfalso. now apply (Hn p). }
  assert (Hres : resume w = (w1, g1, r) ->
            exists w' r',
              match r with
              | Ok (Yield (xf, y, amp)) =>
                  let '(xs, ys, amps) := acc in
                  match setitem xs index xf, setitem ys index y,
                        setitem amps index amp with
                  | Some xs', Some ys', Some amps' =>
                      for_values fuel g1 (S index) (xs', ys', amps') w1
                  | _, _, _ =>
                      match values_step Close g1 w1 with
                      | (w2, _, Err e) => (w2, Some (Err e))
                      | (w2, _, Ok _) => (w2, Some (Err IndexError))
                      end
                  end
              | Ok _ => (w1, Some (Ok acc))
              | Err e => (w1, Some (Err e))
              end = (w', Some r')).
  { intros Hr. apply resume_cases in Hr as [(p & Hl & -> & ->) | [_ Hc]].
    - destruct (loop_iteration_advances _ _ _ Hl)
        as (cp & Hcp & Hlt & Hcp1 & Hpts).
      specialize (Hm _ Hcp).
      destruct p as [[xf y] amp]. destruct acc as [[xs ys] amps].
      destruct (setitem xs index xf), (setitem ys index y),
        (setitem amps index amp);
        try (destruct (values_step Close GenSuspended w1) as [[w2 g2] [o|e]];
             eexists _, _; reflexivity).
      apply IH; [lia|].
      intros cp' Hcp'. rewrite Hcp1 in Hcp'. inversion Hcp'; subst cp'.
      rewrite Hpts. lia.
    - apply Hother. intros p ->. destruct p as [[xf y] amp]. discriminate. }
  destruct g; cbn [values_step] in E; auto.
  inversion E; subst. apply Hother. discriminate.
Qed.

Lemma arm_resets w w' :
  arm w = (w', Ok tt) -> current_point (na w') = Some 0%Z.
Proof.
  intros H. unfold arm, make_axis, iq_setup in H. run_in H.
  cases_of H. all: inversion H; subst; clear H; reflexivity.
Qed.

(** X15: the loop of [curve] ends: with any number of steps greater than
    the number of points in force after [setup], [curve] returns its
    arrays or raises, in every state and for every option, stabilized or
    not; the generator never yields more than [points] times. *)
Lemma curve_returns fuel o w :
  (Z.to_nat (points (na (fst (setup o w)))) < fuel)%nat ->
  exists r, snd (curve fuel o w) = Some r.
Proof.
  intros Hfuel. unfold curve.
  destruct (setup o w) as [w1 [[]|e]] eqn:E; [|now eexists].
  cbn [fst] in Hfuel.
  assert (H0 : current_point (na w1) = Some 0%Z).
  { destruct w as [n d t s]. rewrite setup_eq in E.
    eapply arm_resets; eassumption. }
  destruct (for_values_returns fuel values 0
              (repeat 0 (Z.to_nat (points (na w1))),
               repeat (0, 0) (Z.to_nat (points (na w1))),
               repeat 0 (Z.to_nat (points (na w1)))) w1) as (w' & r & Hr).
  - lia.
  - intros cp Hcp. rewrite H0 in Hcp. inversion Hcp; subst.
    now rewrite Z.sub_0_r.
  - rewrite Hr. now exists r.
Qed.

(** ** The generator cleans up on every way out *)

(** One action on a generator whose body has been entered (or is entered
    by this very action): a [next] that finds a point left yields it and
    leaves the generator suspended, with its axis; everything else
    finishes the generator, after the [finally] clause has run. *)
Lemma values_step_started a g w w' g' r x0 rest :
  x (na w) = Some (x0 :: rest) ->
  g = GenSuspended \/ (g = GenCreated /\ a = Next) ->
  values_step a g w = (w', g', r) ->
  (a = Next /\ g' = GenSuspended /\
   (exists p, loop_iteration w = (w', Ok (Some p)) /\ r = Ok (Yield p)) /\
   x (na w') = x (na w))
  \/
  (g' = GenClosed /\
   iq_amplitude (iq w') = quant_amplitude 0 /\
   iq_frequency (iq w') = quant_frequency x0 /\
   exists tr,
     iq_trace (iq w') = iq_trace (iq w) ++ tr ++
                        [SetAmplitude 0; SetFrequency x0]).
Proof.
  intros Hx Hg H.
  assert (Hresume : a = Next -> resume w = (w', g', r) ->
    (a = Next /\ g' = GenSuspended /\
     (exists p, loop_iteration w = (w', Ok (Some p)) /\ r = Ok (Yield p)) /\
     x (na w') = x (na w))
    \/
    (g' = GenClosed /\
     iq_amplitude (iq w') = quant_amplitude 0 /\
     iq_frequency (iq w') = quant_frequency x0 /\
     exists tr,
       iq_trace (iq w') = iq_trace (iq w) ++ tr ++
                          [SetAmplitude 0; SetFrequency x0])).
  { clear H. intros Ha H. unfold resume in H.
    destruct (loop_iteration w) as [w1 [[p|]|e]] eqn:E.
    - inversion H; subst. left. split; [reflexivity|].
      split; [reflexivity|]. split; [now exists p|].
      eapply loop_iteration_axis; eassumption.
    - right.
      pose proof (loop_iteration_axis _ _ _ E) as Hx1. rewrite Hx in Hx1.
      destruct (loop_iteration_trace _ _ _ E) as [tr Htr].
      destruct (leave_try_cleanup _ _ _ _ _ _ _ Hx1 H)
        as (Hc & _ & Ha' & Hf & Ht).
      repeat split; trivial. exists tr. now rewrite Ht, Htr, app_assoc.
    - right.
      pose proof (loop_iteration_axis _ _ _ E) as Hx1. rewrite Hx in Hx1.
      destruct (loop_iteration_trace _ _ _ E) as [tr Htr].
      destruct (handle_cleanup _ _ _ _ _ _ _ Hx1 H)
        as (Hc & _ & Ha' & Hf & tr2 & Ht).
      repeat split; trivial. exists (tr ++ tr2).
      now rewrite Ht, Htr, !app_assoc. }
  destruct Hg as [-> | [-> ->]]; [destruct a|]; cbn [values_step] in H; auto.
  - right. destruct (leave_try_cleanup _ _ _ _ _ _ _ Hx H)
      as (Hc & _ & Ha & Hf & Ht).
    repeat split; trivial. exists []. exact Ht.
  - right. destruct (handle_cleanup _ _ _ _ _ _ _ Hx H)
      as (Hc & _ & Ha & Hf & Ht).
    repeat split; trivial.
Qed.

(** A run on a started generator: either the consumer has only called
    [next] and got a point each time, or the generator is finished and
    the two writes of the [finally] clause are the last ones. *)
Lemma run_values_started script : forall w w' g' rs x0 rest,
  x (na w) = Some (x0 :: rest) ->
  run_values script GenSuspended w = (w', g', rs) ->
  (g' = GenSuspended /\
   Forall (fun a => a = Next) script /\
   Forall (fun r => exists p, r = Ok (Yield p)) rs)
  \/
  (g' = GenClosed /\
   iq_amplitude (iq w') = quant_amplitude 0 /\
   iq_frequency (iq w') = quant_frequency x0 /\
   exists tr, iq_trace (iq w') = tr ++ [SetAmplitude 0; SetFrequency x0]).
Proof.
  induction script as [|a script IH]; intros w w' g' rs x0 rest Hx H.
  - cbn in H. inversion H; subst. left. auto.
  - cbn [run_values] in H.
    destruct (values_step a GenSuspended w) as [[w1 g1] r] eqn:E.
    destruct (run_values script g1 w1) as [[w2 g2] rs2] eqn:E2.
    inversion H; subst; clear H.
    destruct (values_step_started _ _ _ _ _ _ _ _ Hx (or_introl eq_refl) E)
      as [(-> & -> & (p & _ & ->) & Hx1) | (-> & Ha & Hf & tr & Ht)].
    + rewrite Hx in Hx1.
      destruct (IH _ _ _ _ _ _ Hx1 E2) as [(Hg & Hs & Hr) | Hc].
      * left. split; [exact Hg|]. split; constructor; eauto.
      * right. exact Hc.
    + right. destruct (run_values_closed script w1) as [rs1 E1].
      rewrite E1 in E2. inversion E2; subst.
      repeat split; trivial. eexists. rewrite Ht, app_assoc. reflexivity.
Qed.

(** Every action on a started generator finishes it or moves the sweep
    one point further: a consumer that goes on for more actions than
    there are points left finds the generator finished. *)
Lemma run_values_finishes script : forall w w' g' rs,
  (0 < List.length script)%nat ->
  (forall cp, current_point (na w) = Some cp ->
              (Z.to_nat (points (na w) - cp) < List.length script)%nat) ->
  run_values script GenSuspended w = (w', g', rs) ->
  g' = GenClosed.
Proof.
  induction script as [|a script IH]; intros w w' g' rs Hpos Hm H;
    [cbn in Hpos; lia|].
  cbn [run_values] in H.
  destruct (values_step a GenSuspended w) as [[w1 g1] r] eqn:E.
  destruct (run_values script g1 w1) as [[w2 g2] rs2] eqn:E2.
  inversion H; subst; clear H.
  destruct (values_step_suspended _ _ _ _ _ E) as [[-> _] | ->].
  - assert (Hl : exists p, loop_iteration w = (w1, Ok (Some p))).
    { destruct a; cbn [values_step] in E.
      - apply resume_cases in E as [(p & Hl & _) | [Hc _]];
          [now exists p | discriminate].
      - unfold leave_try in E.
        destruct (finally_clause w) as [w3 [[]|e3]]; inversion E.
      - unfold handle, leave_try in E.
        destruct (except_clause e w) as [w3 [[]|e3]];
          destruct (finally_clause w3) as [w4 [[]|e4]]; inversion E. }
    destruct Hl as [p Hl].
    destruct (loop_iteration_advances _ _ _ Hl)
      as (cp & Hcp & Hlt & Hcp1 & Hpts).
    specialize (Hm _ Hcp). cbn [List.length] in Hm.
    eapply IH; [| |exact E2].
    + lia.
    + intros cp' Hcp'. rewrite Hcp1 in Hcp'. inversion Hcp'; subst cp'.
      rewrite Hpts. lia.
  - destruct (run_values_closed script w1) as [rs1 E1].
    rewrite E1 in E2. now inversion E2.
Qed.

(** C1: on an analyzer that has been set up, take any run of the
    generator that enters its body (the consumer's first action is
    [next]).  Either the sweep is still in progress -- the consumer has
    only called [next] and every call has returned a point -- or the
    generator is finished, the demodulator has amplitude 0 and the
    frequency of the first axis point, and these two writes are the last
    ones it received.  So every way out of the body -- the end of the
    points, an exception raised in the body or thrown into it, the
    consumer closing or abandoning the generator -- goes through the
    cleanup.  The end of the points is reached: once the consumer has
    acted more often than there are points left, the generator is
    finished. *)
Theorem values_cleanup script w w' g' rs x0 rest :
  x (na w) = Some (x0 :: rest) ->
  run_values (Next :: script) values w = (w', g', rs) ->
  ((g' = GenSuspended /\
    Forall (fun a => a = Next) script /\
    Forall (fun r => exists p, r = Ok (Yield p)) rs)
   \/
   (g' = GenClosed /\
    iq_amplitude (iq w') = quant_amplitude 0 /\
    iq_frequency (iq w') = quant_frequency x0 /\
    exists tr, iq_trace (iq w') = tr ++ [SetAmplitude 0; SetFrequency x0]))
  /\
  ((forall cp, current_point (na w) = Some cp ->
               (Z.to_nat (points (na w) - cp) <= List.length script)%nat) ->
   g' = GenClosed).
Proof.
  intros Hx H.
  change values with GenCreated in H.
  assert (Hs : run_values (Next :: script) GenSuspended w = (w', g', rs))
    by exact H.
  split.
  - destruct (run_values_started _ _ _ _ _ _ _ Hx Hs)
      as [(Hg & Hsc & Hr) | Hc]; [left | right; exact Hc].
    inversion Hsc; subst. auto.
  - intros Hm. eapply run_values_finishes; [| |exact Hs].
    + cbn. lia.
    + intros cp Hcp. specialize (Hm _ Hcp). cbn [List.length]. lia.
Qed.

End Properties.

(** ** Runs on the concrete hardware *)

Section Examples.
#[local] Existing Instance ideal_iq.
#[local] Existing Instance plain_floats.

(** C6: [setup(points=3, amplitude=-0.5, maxamplitude=1)] pushes the
    saturated amplitude 0.5, as the invariant asks; the first
    [prepare_for_next_point] then compares the stored amplitude -0.5
    with [maxamplitude] without taking absolute values and pushes -0.5,
    which is in force, outside [0, maxamplitude], while the next point is
    measured. *)
Theorem negative_amplitude_pushed :
  let w1 := run_setup negative_amplitude_options new_analyzer in
  let step := values_step Next values w1 in
  let w2 := fst (fst step) in
  iq_amplitude (iq w1) = 1 # 2 /\
  maxamplitude (na w1) = 1 /\
  (exists p, snd step = Ok (Yield p)) /\
  iq_amplitude (iq w2) = - (1 # 2) /\
  ~ (0 <= iq_amplitude (iq w2) <= maxamplitude (na w2)).
Proof.
  cbv zeta. split; [vm_compute; reflexivity|].
  split; [vm_compute; reflexivity|].
  split; [eexists; vm_compute; reflexivity|].
  split; [vm_compute; reflexivity|].
  intros [H _]. vm_compute in H. apply H. reflexivity.
Qed.

(** A sweep of three points, armed; the consumer takes one point and
    closes the generator. *)
Lemma values_cleanup_witness :
  exists w',
    fst (fst (run_values [Next; Close] values
                (run_setup sweep_options new_analyzer))) = w' /\
    iq_amplitude (iq w') = 0 /\
    iq_frequency (iq w') == 100.
Proof.
  eexists. split; [reflexivity|].
  destruct (values_cleanup [Close]
              (run_setup sweep_options new_analyzer)
              (fst (fst (run_values [Next; Close] values
                           (run_setup sweep_options new_analyzer))))
              (snd (fst (run_values [Next; Close] values
                           (run_setup sweep_options new_analyzer))))
              (snd (run_values [Next; Close] values
                      (run_setup sweep_options new_analyzer)))
              (200 # 2) [1100 # 2; 1000])
    as [[(_ & Hsc & _) | (_ & Ha & Hf & _)] _].
  - vm_compute. reflexivity.
  - vm_compute. reflexivity.
  - inversion Hsc; subst. discriminate.
  - split; [exact Ha | rewrite Hf; reflexivity].
Defined.

(** The three ways out of the generator, on that sweep: exhausting the
    points, an exception (here the unbound name of the stabilized path),
    and closing after the first point. *)
Example cleanup_on_completion :
  let r := run_values [Next; Next; Next; Next] values
             (run_setup sweep_options new_analyzer) in
  snd (fst r) = GenClosed /\
  last (snd r) (Ok Closed) = Ok StopIteration /\
  iq_amplitude (iq (fst (fst r))) = 0.
Proof. vm_compute. auto. Qed.

Example cleanup_on_exception :
  let r := values_step Next values
             (run_setup stabilized_options new_analyzer) in
  snd (fst r) = GenClosed /\
  snd r = Err (NameError "y") /\
  iq_amplitude (iq (fst (fst r))) = 0.
Proof. vm_compute. auto. Qed.

(** C1, as stated, fails for a generator that is abandoned before its
    first [next]: no line of its body has run, so closing it runs no
    [finally] clause.  After [setup(start=100, stop=1000, points=3,
    rbw=100, avg=2)], [g = na.values(); g.close()] finishes the generator
    and changes nothing: the demodulator keeps the amplitude 0.01 that
    [setup] has pushed. *)
Lemma no_cleanup_before_start :
  let w := run_setup sweep_options new_analyzer in
  x (na w) = Some [200 # 2; 1100 # 2; 1000] /\
  run_values [Close] values w = (w, GenClosed, [Ok Closed]) /\
  iq_amplitude (iq w) = 1 # 100 /\
  ~ iq_amplitude (iq w) == quant_amplitude 0.
Proof.
  cbv zeta. split; [vm_compute; reflexivity|].
  split; [vm_compute; reflexivity|].
  split; [vm_compute; reflexivity|].
  intros H. vm_compute in H. discriminate.
Qed.

(** [setup(points=3, stabilize=0.1)] *)
Lemma prepare_for_next_point_stabilized_raises_witness :
  let w := run_setup stabilized_options new_analyzer in
  stabilize (na w) = Some (1 # 10) /\
  prepare_for_next_point (1, 0) w = (w, Err (NameError "y")).
Proof.
  assert (H : stabilize (na (run_setup stabilized_options new_analyzer))
              = Some (1 # 10)) by (vm_compute; reflexivity).
  split; [exact H|].
  exact (prepare_for_next_point_stabilized_raises _ (1, 0) _ H).
Defined.

(** The sweep of the specification: [avg=2], [rbw=100], half a period
    of settling, hence 0.025 s per point. *)
Lemma get_current_point_pacing_witness :
  let w := run_setup sweep_options new_analyzer in
  (time_last_point (na w) = Some 0 /\ iq_bandwidth (iq w) = [100] /\
   ~ 100 == 0) /\
  time_per_point w = (w, Ok (1 / 100 * (2 + (1 # 2)))) /\
  1 / 100 * (2 + (1 # 2)) == 25 # 1000.
Proof.
  cbv zeta.
  assert (Ht : time_last_point (na (run_setup sweep_options new_analyzer))
               = Some 0) by (vm_compute; reflexivity).
  assert (Hr : _rescale (na (run_setup sweep_options new_analyzer))
               = Some rescale_factor) by (vm_compute; reflexivity).
  assert (Hbw : iq_bandwidth (iq (run_setup sweep_options new_analyzer))
                = [100]) by (vm_compute; reflexivity).
  assert (Hb : ~ 100 == 0) by (intros E; vm_compute in E; discriminate).
  split; [auto|].
  split; [|reflexivity].
  exact (proj1 (get_current_point_pacing _ 0 rescale_factor 100 []
                  Ht Hr Hbw Hb)).
Defined.

Lemma get_current_point_normalization_witness :
  let w := run_setup sweep_options new_analyzer in
  exists w' y,
    get_current_point w = (w', Ok (iq_frequency (iq w), y, 1 # 100)).
Proof.
  cbv zeta.
  assert (Ht : time_last_point (na (run_setup sweep_options new_analyzer))
               = Some 0) by (vm_compute; reflexivity).
  assert (Hr : _rescale (na (run_setup sweep_options new_analyzer))
               = Some rescale_factor) by (vm_compute; reflexivity).
  assert (Hbw : iq_bandwidth (iq (run_setup sweep_options new_analyzer))
                = [100]) by (vm_compute; reflexivity).
  assert (Hb : ~ 100 == 0) by (intros E; vm_compute in E; discriminate).
  destruct (get_current_point_normalization _ 0 rescale_factor 100 []
              Ht Hr Hbw Hb) as (w' & y & E & _).
  exists w', y. exact E.
Defined.

(** [curve(start=1000, stop=1000, points=5, ...)] as a script: six calls
    to [next] give five points and the end of the iteration. *)
Lemma zero_span_timestamps_witness :
  let w := run_setup zero_span_options new_analyzer in
  List.length (stamps (snd (run_values (repeat Next 6) values w))) = 5%nat /\
  StronglySorted Qlt (stamps (snd (run_values (repeat Next 6) values w))).
Proof.
  cbv zeta. split; [vm_compute; reflexivity|].
  assert (Hzs : Qeq_bool
                  (start (na (run_setup zero_span_options new_analyzer)))
                  (stop (na (run_setup zero_span_options new_analyzer)))
                = true) by (vm_compute; reflexivity).
  assert (Htpp : time_per_point (run_setup zero_span_options new_analyzer)
                 = (run_setup zero_span_options new_analyzer,
                    Ok (1 / 100 * (2 + (1 # 2)))))
    by (vm_compute; reflexivity).
  assert (Hpos : 0 < 1 / 100 * (2 + (1 # 2))) by reflexivity.
  destruct (run_values (repeat Next 6) values
              (run_setup zero_span_options new_analyzer))
    as [[w' g'] rs] eqn:E.
  exact (proj1 (zero_span_timestamps 6 values _ w' g' rs _
                  Hzs Htpp Hpos E)).
Defined.

(** C4, as stated, fails for a single point:
    [setup(start=200, stop=50000, points=1)] succeeds and makes the axis
    [[200]], whose last element is not [stop]; the same holds over the
    reals. *)
Lemma single_point_axis_misses_stop :
  let w := run_setup single_point_options new_analyzer in
  snd (setup single_point_options new_analyzer) = Ok tt /\
  x (na w) = Some [200] /\
  ~ (exists axis,
       x (na w) = Some axis /\
       List.length axis = Z.to_nat (points (na w)) /\
       nth 0 axis 0 == start (na w) /\
       last axis 0 == stop (na w)) /\
  (last (real_axis false 200 50000 1) 0 <> 50000)%R.
Proof.
  cbv zeta. split; [vm_compute; reflexivity|].
  split; [vm_compute; reflexivity|]. split.
  - intros (axis & Hx & _ & _ & Hlast).
    vm_compute in Hx. inversion Hx; subst. vm_compute in Hlast.
    discriminate.
  - cbn. lra.
Qed.

(** On hardware that accepts every value, the premises on the
    bandwidth hold; [setup(start=100, stop=1000, points=3, rbw=100,
    avg=2)] on a new analyzer. *)
Lemma setup_partial_update_witness :
  let w' := run_setup sweep_options new_analyzer in
  start (na w') = 100 /\
  maxamplitude (na w') = maxamplitude (na new_analyzer) /\
  hd_error (iq_bandwidth (iq w')) = Some 100.
Proof.
  destruct (setup_partial_update sweep_options new_analyzer)
    as (H1 & _ & _ & _ & _ & _ & _ & _ & _ & _ & _ & H12 & _ & Hbw).
  split; [exact H1|]. split; [exact H12|].
  apply Hbw.
  - intros v. reflexivity.
  - vm_compute. repeat constructor.
Defined.

(** The batch acquisition on the zero-span configuration returns the five
    time stamps, 0.025 s apart. *)
Example curve_zero_span :
  exists xs ys amps,
    snd (curve 6 zero_span_options new_analyzer) = Some (Ok (xs, ys, amps))
    /\ map Qred xs = map Qred [25 # 1000; 50 # 1000; 75 # 1000;
                                100 # 1000; 125 # 1000].
Proof. do 3 eexists. vm_compute. split; reflexivity. Qed.
End Examples.

(** * Further properties of the code *)

Ltac run_goal :=
  cbv beta iota delta
    [bind ret raise get_na get_iq modify_na modify_iq attr time sleep
     set_na_field getitem rbw amplitude fdiv time_per_point
     iq_set_frequency iq_set_amplitude iq_set_bandwidth iq_logger_info
     log_event when_given load_name find
     iq_set_na_averages as_float to_float np_mul np_int_round fpow2
     upd_start upd_stop upd_points upd_avg upd__amplitude upd_input
     upd_output_direct upd_acbandwidth upd_sleeptimes upd_logscale
     upd_stabilize upd_maxamplitude upd__setup upd_x upd__na_sleepcycles
     upd__rescale upd_current_point upd_time_last_point upd_iq_frequency
     upd_iq_bandwidth upd_iq_amplitude upd_iq_gain upd_iq_phase
     upd_iq_acbandwidth upd_iq_input upd_iq_output_direct
     upd_iq_output_signal upd_iq_na_averages upd_iq_trace];
  cbn [na iq now slept fst snd
       start stop points avg _amplitude input output_direct acbandwidth
       sleeptimes logscale stabilize maxamplitude _setup x _na_sleepcycles
       _rescale current_point time_last_point iq_frequency iq_bandwidth
       iq_amplitude iq_gain iq_phase iq_acbandwidth iq_input
       iq_output_direct iq_output_signal iq_na_averages iq_trace].

Section Coverage.
Context {hw : Demodulator} {fl : FloatLib}.

(** ** [setup]: when it raises and what it leaves *)

Lemma frequency_axis_length ls a b n :
  List.length (frequency_axis Qplus Qminus Qmult Qdiv Qof_nat log10 pow10
                 ls a b n) = n.
Proof.
  unfold frequency_axis, logspace. destruct ls.
  - rewrite length_map. apply linspace_length.
  - apply linspace_length.
Qed.

Lemma getitem_nat {A} (l : list A) (i : nat) w :
  getitem l (Z.of_nat i) w
  = match nth_error l i with
    | Some a => (w, Ok a)
    | None => (w, Err IndexError)
    end.
Proof.
  unfold getitem.
  assert (H : (Z.of_nat i <? 0)%Z = false) by (apply Z.ltb_ge; lia).
  rewrite H, H, Nat2Z.id. destruct (nth_error l i); reflexivity.
Qed.

(** The result of arming, case by case. *)
Lemma arm_result w :
  snd (arm w)
  = if (points (na w) <? 0)%Z then Err ValueError
    else match Z.to_nat (points (na w)), iq_bandwidth (iq w) with
         | O, _ => Err IndexError
         | S _, [] => Err IndexError
         | S _, b :: _ =>
             let q := 125000000 / quant_bandwidth b in
             let av := avg (na w) in
             let st := sleeptimes (na w) in
             if Qeq_bool (quant_bandwidth b) 0 then Err ZeroDivisionError
             else if negb (Qle_bool (Qabs av) float_max)
             then Err OverflowError
             else if negb (Qle_bool (Qabs q) float_max)
             then (if Qeq_bool av 0 then Err ValueError
                   else Err OverflowError)
             else if negb (Qle_bool (Qabs (q * av)) float_max)
             then Err OverflowError
             else if negb (Qle_bool (Qabs st) float_max)
             then Err OverflowError
             else if negb (Qle_bool (Qabs (q * st)) float_max)
             then Err OverflowError
             else if Qle_bool (Qpower 2 (- _LPFBITS)) float_max
             then Ok tt
             else Err OverflowError
         end.
Proof.
  unfold arm, make_axis, iq_setup. run_goal.
  destruct (points (na w) <? 0)%Z; [reflexivity|]. run_goal.
  pose proof (frequency_axis_length (logscale (na w)) (start (na w))
                (stop (na w)) (Z.to_nat (points (na w)))) as Hlen.
  destruct (frequency_axis _ _ _ _ _ _ _ _ _ _ _) as [|a0 axis];
    destruct (Z.to_nat (points (na w))); try discriminate;
    cbn [nth_error Z.to_nat Z.ltb Z.compare]; run_goal.
  - reflexivity.
  - destruct (iq_bandwidth (iq w)) as [|b bs];
      cbn [nth_error Z.to_nat Z.ltb Z.compare]; run_goal; [reflexivity|].
    cbn [nth_error Z.to_nat Z.ltb Z.compare]. cbv zeta.
    destruct (Qeq_bool (quant_bandwidth b) 0) eqn:E; [reflexivity|].
    run_goal. cbn [nth_error Z.to_nat Z.ltb Z.compare].
    destruct (Qle_bool (Qabs (avg (na w))) float_max); [|reflexivity].
    run_goal. cbn [negb].
    destruct (Qle_bool (Qabs (125000000 / quant_bandwidth b)) float_max)
      eqn:Eq; cbn [negb];
      [|destruct (Qeq_bool (avg (na w)) 0); reflexivity].
    destruct (Qle_bool
                (Qabs (125000000 / quant_bandwidth b * avg (na w)))
                float_max); [|reflexivity].
    run_goal. cbn [nth_error Z.to_nat Z.ltb Z.compare negb]. rewrite E.
    run_goal.
    destruct (Qle_bool (Qabs (sleeptimes (na w))) float_max); [|reflexivity].
    run_goal. cbn [negb]. rewrite Eq.
    destruct (Qle_bool
                (Qabs (125000000 / quant_bandwidth b * sleeptimes (na w)))
                float_max); [|reflexivity].
    run_goal. cbn [negb].
    destruct (Qle_bool (Qpower 2 (- _LPFBITS)) float_max); reflexivity.
Qed.

Lemma in_range v :
  representable v -> Qle_bool (Qabs v) float_max = true.
Proof. intros H. now apply Qle_bool_iff. Qed.

Lemma out_of_range v :
  ~ representable v -> Qle_bool (Qabs v) float_max = false.
Proof.
  intros H. destruct (Qle_bool (Qabs v) float_max) eqn:E; [|reflexivity].
  apply Qle_bool_iff in E. contradiction.
Qed.

(** X1: [setup] raises [ValueError] for a negative number of points and
    [IndexError] for zero points (the axis is empty) or when the
    demodulator holds no bandwidth; it raises as well when the bandwidth
    the hardware reports for the first stage is zero.  With a bandwidth
    that is not zero, it raises [OverflowError] when [avg] or one of the
    cycle counts [125e6 / rbw * avg] and [125e6 / rbw * sleeptimes] is
    beyond the range of the floats ([ValueError] when the quotient
    [125e6 / rbw] is infinite and [avg] is zero, the product being
    [nan]), and it returns when the numbers involved -- the bandwidth,
    [_LPFBITS], [avg], [sleeptimes], the quotient, both counts and
    [2.0 ** (-_LPFBITS)] -- are all in the range.  The number of points,
    the bandwidth, [avg] and [sleeptimes] are the ones in force once the
    options are merged. *)
Theorem setup_outcome (o : options) (w : World) :
  let pts := given (o_points o) (points (na w)) in
  let bws := given (option_map (fun val => map quant_bandwidth (rbw_list val))
                               (o_rbw o))
                   (iq_bandwidth (iq w)) in
  let av := given (o_avg o) (avg (na w)) in
  let st := given (o_sleeptimes o) (sleeptimes (na w)) in
  ((pts < 0)%Z -> snd (setup o w) = Err ValueError) /\
  (pts = 0%Z -> snd (setup o w) = Err IndexError) /\
  ((0 < pts)%Z -> bws = [] -> snd (setup o w) = Err IndexError) /\
  (forall b bs, (0 < pts)%Z -> bws = b :: bs -> quant_bandwidth b == 0 ->
                exists e, snd (setup o w) = Err e) /\
  (forall b bs, (0 < pts)%Z -> bws = b :: bs -> ~ quant_bandwidth b == 0 ->
     let q := 125000000 / quant_bandwidth b in
     (~ representable av -> snd (setup o w) = Err OverflowError) /\
     (representable av -> ~ representable q -> av == 0 ->
      snd (setup o w) = Err ValueError) /\
     (representable av -> ~ representable q -> ~ av == 0 ->
      snd (setup o w) = Err OverflowError) /\
     (representable av -> representable q -> ~ representable (q * av) ->
      snd (setup o w) = Err OverflowError) /\
     (representable av -> representable q -> representable (q * av) ->
      ~ representable st \/ ~ representable (q * st) ->
      snd (setup o w) = Err OverflowError) /\
     (representable (quant_bandwidth b) ->
      representable (inject_Z _LPFBITS) ->
      representable av -> representable q -> representable (q * av) ->
      representable st -> representable (q * st) ->
      representable (Qpower 2 (- _LPFBITS)) ->
      snd (setup o w) = Ok tt)).
Proof.
  destruct w as [n d t s]. cbv zeta. cbn [na iq].
  rewrite setup_eq, arm_result. cbn [na iq]. cbv zeta.
  rewrite merged_iq_bandwidth.
  destruct (merged_na_fields o n)
    as (_ & _ & -> & -> & _ & _ & _ & _ & -> & _).
  set (pts := given (o_points o) (points n)).
  set (bws := given _ (iq_bandwidth d)).
  set (av := given (o_avg o) (avg n)).
  set (st := given (o_sleeptimes o) (sleeptimes n)).
  split; [|split; [|split; [|split]]].
  - intros H. apply Z.ltb_lt in H. now rewrite H.
  - intros ->. reflexivity.
  - intros H ->. assert (E : (pts <? 0)%Z = false) by (apply Z.ltb_ge; lia).
    rewrite E. destruct (Z.to_nat pts) eqn:En; [lia | reflexivity].
  - intros b bs H -> Hb.
    assert (E : (pts <? 0)%Z = false) by (apply Z.ltb_ge; lia).
    rewrite E. destruct (Z.to_nat pts) eqn:En; [lia|].
    apply Qeq_bool_iff in Hb. rewrite Hb. eexists. reflexivity.
  - intros b bs H -> Hb.
    assert (E : (pts <? 0)%Z = false) by (apply Z.ltb_ge; lia).
    rewrite E. destruct (Z.to_nat pts) eqn:En; [lia|].
    rewrite (Qeq_bool_false _ _ Hb).
    split; [|split; [|split; [|split; [|split]]]].
    + intros Hav. now rewrite (out_of_range _ Hav).
    + intros Hav Hq Hz. rewrite (in_range _ Hav), (out_of_range _ Hq).
      apply Qeq_bool_iff in Hz. now rewrite Hz.
    + intros Hav Hq Hz. rewrite (in_range _ Hav), (out_of_range _ Hq).
      now rewrite (Qeq_bool_false _ _ Hz).
    + intros Hav Hq Hp.
      now rewrite (in_range _ Hav), (in_range _ Hq), (out_of_range _ Hp).
    + intros Hav Hq Hp Hst.
      rewrite (in_range _ Hav), (in_range _ Hq), (in_range _ Hp).
      cbn [negb].
      destruct (Qle_bool (Qabs st) float_max) eqn:Es; [|reflexivity].
      destruct Hst as [Hst | Hst].
      * rewrite (out_of_range _ Hst) in Es. discriminate.
      * now rewrite (out_of_range _ Hst).
    + intros _ _ Hav Hq Hp Hst Hps Hpow.
      rewrite (in_range _ Hav), (in_range _ Hq), (in_range _ Hp),
        (in_range _ Hst), (in_range _ Hps).
      assert (Hle : Qle_bool (Qpower 2 (- _LPFBITS)) float_max = true).
      { apply Qle_bool_iff. eapply Qle_trans; [apply Qle_Qabs | exact Hpow]. }
      now rewrite Hle.
Qed.

(** What arming has done when it returns. *)
Lemma arm_ok_inv w w' :
  arm w = (w', Ok tt) ->
  let axis := frequency_axis Qplus Qminus Qmult Qdiv Qof_nat log10 pow10
                (logscale (na w)) (start (na w)) (stop (na w))
                (Z.to_nat (points (na w))) in
  exists x0 b,
    nth_error axis 0 = Some x0 /\
    nth_error (iq_bandwidth (iq w)) 0 = Some b /\
    Qeq_bool (quant_bandwidth b) 0 = false /\
    (points (na w) <? 0)%Z = false /\
    _setup (na w') = true /\
    x (na w') = Some axis /\
    current_point (na w') = Some 0%Z /\
    time_last_point (na w') = Some (now w') /\
    _rescale (na w') = Some rescale_factor /\
    _na_sleepcycles (na w')
      = Some (round_half_even
                (125000000 / quant_bandwidth b * sleeptimes (na w))) /\
    slept w' = slept w /\
    iq_frequency (iq w') = quant_frequency x0 /\
    iq_bandwidth (iq w') = [quant_bandwidth b] /\
    iq_na_averages (iq w')
      = Some (round_half_even (125000000 / quant_bandwidth b * avg (na w))) /\
    iq_trace (iq w')
      = iq_trace (iq w) ++
        [IqSetup x0 b 0 0 (- acbandwidth (na w))
                 (saturate (_amplitude (na w)) (maxamplitude (na w)))
                 (input (na w)) (output_direct (na w)) "output_direct";
         SetNaAverages
           (round_half_even (125000000 / quant_bandwidth b * avg (na w)));
         SetFrequency x0].
Proof.
  intros H axis. subst axis.
  unfold arm, make_axis, iq_setup in H. run_in H.
  cases_of H.
  all: inversion H; subst; clear H.
  all: change (Z.to_nat 0) with 0%nat in *.
  all: repeat match goal with
              | E : nth_error [_] 0 = Some _ |- _ =>
                  cbn [nth_error] in E; inversion E; subst; clear E
              | E : Some _ = Some _ |- _ => inversion E; subst; clear E
              | E : Finite _ = Finite _ |- _ => inversion E; subst; clear E
              end.
  all: do 2 eexists; cbn [na iq now slept
       start stop points avg _amplitude input output_direct acbandwidth
       sleeptimes logscale stabilize maxamplitude _setup x _na_sleepcycles
       _rescale current_point time_last_point iq_frequency iq_bandwidth
       iq_amplitude iq_gain iq_phase iq_acbandwidth iq_input
       iq_output_direct iq_output_signal iq_na_averages iq_trace].
  all: repeat (split; [first [eassumption | reflexivity]|]).
  all: now rewrite <- !app_assoc.
Qed.

Lemma setup_ok_inv o w w' :
  setup o w = (w', Ok tt) ->
  exists wm, fst (merge_options o w) = wm /\ arm wm = (w', Ok tt) /\
             same_config wm w'.
Proof.
  destruct w as [n d t s]. rewrite setup_eq, merge_options_eq. intros H.
  eexists. split; [reflexivity|]. split; [exact H|].
  eapply arm_same_config. exact H.
Qed.

(** X2: when [setup] returns, whatever the state it started from: the
    flag [_setup] is set, the axis is the one computed from the
    configuration now in force and has exactly [points] elements, with
    [points] positive; the sweep stands at point 0; the dwell clock
    restarts at the time read by the last statement; [setup] has not
    called [sleep]; the rescaling factor is [2 ** (-_LPFBITS) * 4]. *)
Theorem setup_resets_sweep (o : options) (w w' : World) :
  setup o w = (w', Ok tt) ->
  let axis := frequency_axis Qplus Qminus Qmult Qdiv Qof_nat log10 pow10
                (logscale (na w')) (start (na w')) (stop (na w'))
                (Z.to_nat (points (na w'))) in
  _setup (na w') = true /\
  x (na w') = Some axis /\
  (0 < points (na w'))%Z /\
  List.length axis = Z.to_nat (points (na w')) /\
  current_point (na w') = Some 0%Z /\
  time_last_point (na w') = Some (now w') /\
  slept w' = slept w /\
  _rescale (na w') = Some rescale_factor.
Proof.
  intros H axis.
  destruct (setup_ok_inv _ _ _ H) as (wm & Hm & Harm & Hcfg).
  assert (Hs0 : slept wm = slept w).
  { subst wm. destruct w as [n d t s]. rewrite merge_options_eq. now cbn. }
  destruct (arm_ok_inv _ _ Harm)
    as (x0 & b & Hx0 & _ & _ & Hneg & Hs & Hx & Hcp & Htl & Hr & _ & Hsl & _).
  unfold same_config in Hcfg.
  destruct Hcfg as (C1 & C2 & C3 & _ & _ & _ & _ & _ & _ & C10 & _).
  assert (Haxis : axis = frequency_axis Qplus Qminus Qmult Qdiv Qof_nat
                           log10 pow10 (logscale (na wm)) (start (na wm))
                           (stop (na wm)) (Z.to_nat (points (na wm)))).
  { subst axis. now rewrite C1, C2, C3, C10. }
  rewrite <- Haxis in Hx, Hx0.
  assert (Hlen : List.length axis = Z.to_nat (points (na w')))
    by apply frequency_axis_length.
  repeat split; trivial; try congruence.
  destruct axis as [|a0 rest]; [discriminate|]. cbn in Hlen. lia.
Qed.

(** X3: when [setup] returns, the last three writes the demodulator has
    received are the call [iq.setup(frequency=x[0], bandwidth=self.rbw,
    gain=0, phase=0, acbandwidth=-self.acbandwidth, amplitude=...,
    input=..., output_direct=..., output_signal='output_direct')], the
    write of [round(125e6 / rbw * avg)] to [_na_averages], [rbw] being the
    bandwidth read back after the call, and the write of [x[0]] to the
    frequency; the amplitude of the call is
    [min(|amplitude|, |maxamplitude|)], between 0 and [|maxamplitude|], and
    the bandwidth of the call is one the hardware does not turn into
    zero. *)
Theorem setup_arms_demodulator (o : options) (w w' : World) :
  setup o w = (w', Ok tt) ->
  exists x0 rest b tr,
    x (na w') = Some (x0 :: rest) /\
    iq_trace (iq w')
      = tr ++ [IqSetup x0 b 0 0 (- acbandwidth (na w'))
                 (saturate (_amplitude (na w')) (maxamplitude (na w')))
                 (input (na w')) (output_direct (na w')) "output_direct";
               SetNaAverages
                 (round_half_even
                    (125000000 / quant_bandwidth b * avg (na w')));
               SetFrequency x0] /\
    rbw w' = (w', Ok (quant_bandwidth b)) /\
    0 <= saturate (_amplitude (na w')) (maxamplitude (na w'))
      <= Qabs (maxamplitude (na w')) /\
    (Qabs (_amplitude (na w')) <= Qabs (maxamplitude (na w')) ->
     saturate (_amplitude (na w')) (maxamplitude (na w'))
     = Qabs (_amplitude (na w'))) /\
    ~ quant_bandwidth b == 0 /\
    iq_frequency (iq w') = quant_frequency x0.
Proof.
  intros H.
  destruct (setup_ok_inv _ _ _ H) as (wm & Hm & Harm & Hcfg).
  destruct (arm_ok_inv _ _ Harm)
    as (x0 & b & Hx0 & _ & Hb & _ & _ & Hx & _ & _ & _ & _ & _ & Hf & Hbw
        & _ & Htr).
  unfold same_config in Hcfg.
  destruct Hcfg as (_ & _ & _ & C4 & C5 & C6 & C7 & C8 & _ & _ & _ & C12).
  destruct (frequency_axis _ _ _ _ _ _ _ _ _ _ _) as [|a0 rest];
    [discriminate|].
  cbn in Hx0. inversion Hx0; subst a0.
  exists x0, rest, b, (iq_trace (iq wm)).
  rewrite C4, C5, C6, C7, C8, C12.
  split; [exact Hx|]. split; [exact Htr|].
  split; [exact (rbw_eq _ _ _ Hbw)|].
  split; [apply saturate_bounds|]. split.
  - intros Hle. unfold saturate, Qgtb.
    apply Qle_bool_iff in Hle. now rewrite Hle.
  - split; [|exact Hf]. intros E. apply Qeq_bool_iff in E. congruence.
Qed.

(** ** A whole sweep *)

Lemma paced_fields w r :
  na (paced w r) = na w /\ iq (paced w r) = iq w.
Proof. unfold paced. destruct (Qle_bool 0 r); auto. Qed.

(** Preparing the next point of an unstabilized sweep that stands at
    point [i]. *)
Lemma prepare_step y w axis i :
  stabilize (na w) = None ->
  current_point (na w) = Some (Z.of_nat i) ->
  x (na w) = Some axis ->
  points (na w) = Z.of_nat (List.length axis) ->
  exists w',
    prepare_for_next_point y w = (w', Ok tt) /\
    na w' = upd_time_last_point (Some (now w))
              (upd_current_point (Some (Z.of_nat (S i))) (na w)) /\
    now w' = now w /\ slept w' = slept w /\
    iq_bandwidth (iq w') = iq_bandwidth (iq w) /\
    (forall f, nth_error axis (S i) = Some f ->
               iq_frequency (iq w') = quant_frequency f).
Proof.
  intros Hs Hcp Hx Hp.
  assert (E1 : (Z.of_nat (S i) <? 0)%Z = false) by (apply Z.ltb_ge; lia).
  assert (E2 : (Z.of_nat i + 1 = Z.of_nat (S i))%Z) by lia.
  unfold prepare_for_next_point. run_goal. rewrite Hs. run_goal.
  rewrite Hcp. run_goal. rewrite E2, Hp.
  destruct (Z.of_nat (S i) <? Z.of_nat (List.length axis))%Z eqn:Elt.
  - apply Z.ltb_lt in Elt.
    destruct (nth_error axis (S i)) as [f|] eqn:Ef;
      [|apply nth_error_None in Ef; lia].
    run_goal. rewrite Hx. run_goal. cbv zeta.
    rewrite E1, E1, Nat2Z.id, Ef.
    eexists. split; [reflexivity|]. cbn. rewrite ?Hx, ?Hp, ?Hs.
    do 4 (split; [reflexivity|]). intros f0 E. now inversion E.
  - apply Z.ltb_ge in Elt. run_goal.
    eexists. split; [reflexivity|]. cbn. rewrite ?Hx, ?Hp, ?Hs.
    do 4 (split; [reflexivity|]). intros f Ef.
    assert (H : nth_error axis (S i) = None) by (apply nth_error_None; lia).
    cbn [nth_error] in H. congruence.
Qed.

(** One step of a sweep that has a point left. *)
Lemma sweep_step axis i w f :
  sweeping axis i w ->
  nth_error axis i = Some f ->
  exists w' y,
    loop_iteration w
    = (w', Ok (Some (if Qeq_bool (start (na w)) (stop (na w))
                     then now w' else quant_frequency f,
                     y, _amplitude (na w)))) /\
    sweeping axis (S i) w' /\
    start (na w') = start (na w) /\ stop (na w') = stop (na w) /\
    _amplitude (na w') = _amplitude (na w).
Proof.
  intros (Hx & Hp & Hcp & Hs & [t Ht] & [r Hr] & (b & bs & Hbw & Hb) & Hf) Hi.
  assert (Hlt : (i < List.length axis)%nat)
    by (apply nth_error_Some; congruence).
  pose proof (get_current_point_eq w t r b bs Ht Hr Hbw Hb) as Hget.
  cbv zeta in Hget.
  set (wp := paced w (1 / b * (avg (na w) + sleeptimes (na w))
                     - (now w - t))) in *.
  destruct (paced_fields w (1 / b * (avg (na w) + sleeptimes (na w))
                            - (now w - t))) as [Hna Hiq].
  fold wp in Hna, Hiq.
  destruct (prepare_step
              (if Qeq_bool (_amplitude (na w)) 0
               then cscale r (_nadata (iq w) (now wp))
               else cscale (r / _amplitude (na w))
                           (_nadata (iq w) (now wp)))
              wp axis i) as (w' & Hprep & Hna' & Hnow & Hsl & Hbw' & Hf');
    try (rewrite Hna; assumption).
  exists w'. eexists.
  split.
  - unfold loop_iteration.
    rewrite (bind_eq _ _ w w (Z.of_nat i)) by (unfold attr; now rewrite Hcp).
    rewrite (bind_eq _ _ w w (na w)) by reflexivity.
    assert (E : (Z.of_nat i <? points (na w))%Z = true)
      by (apply Z.ltb_lt; lia).
    rewrite E. rewrite (bind_eq _ _ _ _ _ Hget).
    rewrite (Hf _ Hi).
    destruct (Qeq_bool (start (na w)) (stop (na w))).
    + rewrite (bind_eq _ _ wp wp (now wp)) by reflexivity.
      rewrite (bind_eq _ _ _ _ _ Hprep). rewrite Hnow. reflexivity.
    + rewrite (bind_eq _ _ wp wp (quant_frequency f)) by reflexivity.
      rewrite (bind_eq _ _ _ _ _ Hprep). reflexivity.
  - rewrite Hna' , Hna. cbn.
    split; [|auto].
    unfold sweeping. rewrite Hna', Hna, Hbw', Hiq. cbn.
    repeat split; trivial; eauto.
Qed.

(** The step after the last point ends the loop. *)
Lemma sweep_end axis w :
  sweeping axis (List.length axis) w -> loop_iteration w = (w, Ok None).
Proof.
  intros (Hx & Hp & Hcp & _).
  unfold loop_iteration.
  rewrite (bind_eq _ _ w w (Z.of_nat (List.length axis)))
    by (unfold attr; now rewrite Hcp).
  rewrite (bind_eq _ _ w w (na w)) by reflexivity.
  rewrite Hp, Z.ltb_irrefl. reflexivity.
Qed.

Lemma run_values_closed_yields script w w' g' rs :
  run_values script GenClosed w = (w', g', rs) -> yields rs = [].
Proof.
  revert w w' g' rs.
  induction script as [|a script IH]; intros w w' g' rs H.
  - now inversion H.
  - cbn [run_values] in H.
    destruct a; cbn [values_step] in H;
      destruct (run_values script GenClosed w) as [[w2 g2] rs2] eqn:E;
      inversion H; subst; cbn; eapply IH; eassumption.
Qed.

Lemma skipn_nth_error {A} (l : list A) i a :
  nth_error l i = Some a -> skipn i l = a :: skipn (S i) l.
Proof.
  revert i. induction l as [|b l IH]; intros [|i] H; try discriminate.
  - now inversion H.
  - cbn in H. cbn [skipn]. rewrite (IH _ H). reflexivity.
Qed.

Lemma sweep_run axis k : forall i w g w' g' rs,
  g <> GenClosed ->
  sweeping axis i w ->
  (i <= List.length axis)%nat ->
  run_values (repeat Next k) g w = (w', g', rs) ->
  map point_amplitude (yields rs)
    = repeat (_amplitude (na w)) (Nat.min k (List.length axis - i)) /\
  (Qeq_bool (start (na w)) (stop (na w)) = false ->
   map point_frequency (yields rs)
     = map quant_frequency (firstn k (skipn i axis))) /\
  ((List.length axis - i < k)%nat -> g' = GenClosed).
Proof.
  induction k as [|k IH]; intros i w g w' g' rs Hg Hsw Hi H.
  - inversion H; subst. cbn. repeat split; trivial. lia.
  - cbn [repeat run_values] in H.
    assert (Hres : values_step Next g w = resume w)
      by (destruct g; trivial; contradiction).
    rewrite Hres in H. unfold resume in H.
    destruct (nth_error axis i) as [f|] eqn:Ef.
    + assert (Hlt : (i < List.length axis)%nat)
        by (apply nth_error_Some; congruence).
      destruct (sweep_step _ _ _ _ Hsw Ef)
        as (w1 & y & Hl & Hsw1 & Hst & Hsp & Ha).
      rewrite Hl in H.
      destruct (run_values (repeat Next k) GenSuspended w1)
        as [[w2 g2] rs2] eqn:E2.
      inversion H; subst; clear H.
      destruct (IH (S i) w1 GenSuspended _ _ _ ltac:(discriminate) Hsw1
                  ltac:(lia) E2) as (IHa & IHf & IHc).
      cbn [yields map].
      replace (List.length axis - i)%nat
        with (S (List.length axis - S i)) by lia.
      cbn [Nat.min repeat]. rewrite IHa, Ha.
      split; [reflexivity|]. split.
      * intros Hz. rewrite (skipn_nth_error _ _ _ Ef). cbn [firstn map].
        rewrite IHf by (now rewrite Hst, Hsp).
        unfold point_frequency at 1. cbn [fst]. now rewrite Hz.
      * intros Hk. apply IHc. lia.
    + apply nth_error_None in Ef.
      assert (i = List.length axis) by lia. subst i.
      rewrite (sweep_end _ _ Hsw) in H. unfold leave_try in H.
      assert (Hrest : forall w1 r, (forall p, r <> Ok (Yield p)) ->
                (let (p0, rs0) := run_values (repeat Next k) GenClosed w1 in
                 let (w2, g2) := p0 in (w2, g2, r :: rs0)) = (w', g', rs) ->
                yields rs = [] /\ g' = GenClosed).
      { intros w1 r Hr Hrun.
        destruct (run_values_closed (repeat Next k) w1) as [rs1 E1].
        pose proof (run_values_closed_yields _ _ _ _ _ E1) as Hy.
        rewrite E1 in Hrun. inversion Hrun; subst.
        split; [|reflexivity].
        destruct r as [[p| |]|e]; cbn; trivial. exfalso. now apply (Hr p). }
      rewrite Nat.sub_diag, Nat.min_0_r, skipn_all, firstn_nil.
      destruct (finally_clause w) as [w1 [[]|e]];
        apply Hrest in H; try (intros p; discriminate);
        destruct H as [-> ->]; repeat split; reflexivity.
Qed.

(** An analyzer that [setup] has armed without stabilization stands at
    point 0 of its axis. *)
Lemma setup_sweeping o w w' axis :
  setup o w = (w', Ok tt) ->
  stabilize (na w') = None ->
  x (na w') = Some axis ->
  sweeping axis 0 w' /\ (0 < List.length axis)%nat.
Proof.
  intros H Hs Hx.
  destruct (setup_ok_inv _ _ _ H) as (wm & Hm & Harm & Hcfg).
  destruct (arm_ok_inv _ _ Harm)
    as (x0 & b & Hx0 & _ & Hb & Hneg & _ & Hx' & Hcp & Htl & Hr & _ & _
        & Hf & Hbw & _).
  rewrite Hx in Hx'. inversion Hx'; subst axis; clear Hx'.
  unfold same_config in Hcfg. destruct Hcfg as (_ & _ & C3 & _).
  apply Z.ltb_ge in Hneg.
  split.
  - unfold sweeping. split; [exact Hx|].
    split; [rewrite frequency_axis_length, C3; lia|].
    split; [exact Hcp|]. split; [exact Hs|].
    split; [eauto|]. split; [eauto|].
    split; [exists (quant_bandwidth b), []; auto|].
    intros f Hf0. rewrite Hx0 in Hf0. inversion Hf0; subst. exact Hf.
  - apply nth_error_Some. congruence.
Qed.

(** X4: after a [setup] that returned without stabilization, [k] calls
    to [next] on a new generator yield [min k points] points, one for each
    axis value in order; each point carries the stored amplitude, and,
    unless [start == stop], the frequency the hardware makes of its axis
    value; asking once more than there are points finishes the
    generator. *)
Theorem sweep_visits_axis o w w1 axis k w' g' rs :
  setup o w = (w1, Ok tt) ->
  stabilize (na w1) = None ->
  x (na w1) = Some axis ->
  run_values (repeat Next k) values w1 = (w', g', rs) ->
  List.length (yields rs) = Nat.min k (Z.to_nat (points (na w1))) /\
  map point_amplitude (yields rs)
    = repeat (_amplitude (na w1)) (Nat.min k (List.length axis)) /\
  (Qeq_bool (start (na w1)) (stop (na w1)) = false ->
   map point_frequency (yields rs) = map quant_frequency (firstn k axis)) /\
  ((List.length axis < k)%nat -> g' = GenClosed).
Proof.
  intros H Hs Hx Hrun.
  destruct (setup_sweeping _ _ _ _ H Hs Hx) as [Hsw _].
  destruct (sweep_run axis k 0 w1 values w' g' rs ltac:(discriminate) Hsw
              ltac:(lia) Hrun) as (Ha & Hf & Hc).
  rewrite Nat.sub_0_r in Ha, Hc. cbn [skipn] in Hf.
  assert (Hlen : Z.to_nat (points (na w1)) = List.length axis).
  { destruct Hsw as (_ & Hp & _). rewrite Hp. apply Nat2Z.id. }
  repeat split; trivial.
  rewrite Hlen, <- (length_map point_amplitude), Ha. apply repeat_length.
Qed.

(** ** [curve] *)

Lemma setitem_spec {A} (l : list A) i v :
  (i < List.length l)%nat ->
  exists l', setitem l i v = Some l' /\ List.length l' = List.length l /\
             firstn (S i) l' = (firstn i l ++ [v])%list.
Proof.
  intros Hi. unfold setitem.
  assert (E : (i <? List.length l)%nat = true) by (apply Nat.ltb_lt; lia).
  rewrite E. eexists. split; [reflexivity|].
  assert (Hl : List.length (firstn i l) = i)
    by (apply firstn_length_le; lia).
  split.
  - rewrite length_app. cbn [List.length]. rewrite Hl, length_skipn. lia.
  - rewrite firstn_app, Hl.
    rewrite firstn_all2 by lia.
    replace (S i - i)%nat with 1%nat by lia. reflexivity.
Qed.

Lemma for_values_sweep axis fuel : forall i w g xs ys amps,
  g <> GenClosed ->
  sweeping axis i w ->
  axis <> [] ->
  (i <= List.length axis)%nat ->
  List.length xs = List.length axis ->
  List.length ys = List.length axis ->
  List.length amps = List.length axis ->
  (List.length axis - i < fuel)%nat ->
  exists w' xs' ys' amps',
    for_values fuel g i (xs, ys, amps) w = (w', Some (Ok (xs', ys', amps'))) /\
    amps' = (firstn i amps
             ++ repeat (_amplitude (na w)) (List.length axis - i))%list /\
    (Qeq_bool (start (na w)) (stop (na w)) = false ->
     xs' = (firstn i xs ++ map quant_frequency (skipn i axis))%list) /\
    List.length xs' = List.length axis /\
    List.length ys' = List.length axis /\
    iq_amplitude (iq w') = quant_amplitude 0 /\
    iq_frequency (iq w') = quant_frequency (hd 0 axis).
Proof.
  induction fuel as [|fuel IH];
    intros i w g xs ys amps Hg Hsw Hne Hi Hxs Hys Hamps Hfuel; [lia|].
  cbn [for_values].
  assert (Hres : values_step Next g w = resume w)
    by (destruct g; trivial; contradiction).
  rewrite Hres. unfold resume.
  destruct (nth_error axis i) as [f|] eqn:Ef.
  - assert (Hlt : (i < List.length axis)%nat)
      by (apply nth_error_Some; congruence).
    destruct (sweep_step _ _ _ _ Hsw Ef)
      as (w1 & y & Hl & Hsw1 & Hst & Hsp & Ha).
    rewrite Hl.
    destruct (setitem_spec xs i
                (if Qeq_bool (start (na w)) (stop (na w))
                 then now w1 else quant_frequency f))
      as (xs1 & -> & Lx & Fx); [lia|].
    destruct (setitem_spec ys i y) as (ys1 & -> & Ly & Fy); [lia|].
    destruct (setitem_spec amps i (_amplitude (na w)))
      as (amps1 & -> & La & Fa); [lia|].
    destruct (IH (S i) w1 GenSuspended xs1 ys1 amps1 ltac:(discriminate)
                Hsw1 Hne ltac:(lia) ltac:(lia) ltac:(lia) ltac:(lia)
                ltac:(lia))
      as (w' & xs' & ys' & amps' & Hfor & Hamps' & Hxs' & L1 & L2 & Hamp & Hfr).
    exists w', xs', ys', amps'. split; [exact Hfor|].
    split; [|split; [|auto]].
    + rewrite Hamps', Fa, Ha, <- app_assoc. cbn [app].
      replace (List.length axis - i)%nat
        with (S (List.length axis - S i)) by lia.
      reflexivity.
    + intros Hz. rewrite Hxs' by (now rewrite Hst, Hsp).
      rewrite Fx, Hz, <- app_assoc. cbn [app].
      now rewrite (skipn_nth_error _ _ _ Ef).
  - apply nth_error_None in Ef.
    assert (i = List.length axis) by lia. subst i.
    rewrite (sweep_end _ _ Hsw). unfold leave_try.
    destruct axis as [|x0 rest]; [contradiction|].
    destruct Hsw as (Hx & _).
    destruct (finally_clause_eq w x0 rest Hx) as (w1 & E & Ha & Hf & _).
    rewrite E.
    exists w1, xs, ys, amps. split; [reflexivity|].
    rewrite Nat.sub_diag, skipn_all. cbn [repeat map hd].
    rewrite !app_nil_r.
    split; [now rewrite <- Hamps, firstn_all|].
    split; [intros _; now rewrite <- Hxs, firstn_all|].
    auto.
Qed.

(** X5: when [setup] returns without stabilization, [curve] (given more
    steps than there are points) returns three arrays of length [points]:
    the amplitudes are all the stored amplitude and, unless
    [start == stop], the frequencies are what the hardware makes of the
    axis values, in order; on return the demodulator has amplitude 0 and
    is tuned back to the first axis value. *)
Theorem curve_acquires (fuel : nat) (o : options) (w w1 : World) axis :
  setup o w = (w1, Ok tt) ->
  stabilize (na w1) = None ->
  x (na w1) = Some axis ->
  (List.length axis < fuel)%nat ->
  exists w' xs ys amps,
    curve fuel o w = (w', Some (Ok (xs, ys, amps))) /\
    List.length xs = Z.to_nat (points (na w1)) /\
    List.length ys = Z.to_nat (points (na w1)) /\
    amps = repeat (_amplitude (na w1)) (Z.to_nat (points (na w1))) /\
    (Qeq_bool (start (na w1)) (stop (na w1)) = false ->
     xs = map quant_frequency axis) /\
    iq_amplitude (iq w') = quant_amplitude 0 /\
    iq_frequency (iq w') = quant_frequency (hd 0 axis).
Proof.
  intros H Hs Hx Hfuel.
  destruct (setup_sweeping _ _ _ _ H Hs Hx) as [Hsw Hpos].
  assert (Hlen : Z.to_nat (points (na w1)) = List.length axis).
  { destruct Hsw as (_ & Hp & _). rewrite Hp. apply Nat2Z.id. }
  unfold curve. rewrite H. cbv zeta. rewrite Hlen.
  destruct (for_values_sweep axis fuel 0 w1 values
              (repeat 0 (List.length axis))
              (repeat (0, 0) (List.length axis))
              (repeat 0 (List.length axis)))
    as (w' & xs & ys & amps & Hfor & Hamps & Hxs & L1 & L2 & Ha & Hf);
    rewrite ?repeat_length; trivial; try lia; try discriminate.
  { intros ->. cbn in Hpos. lia. }
  exists w', xs, ys, amps. split; [exact Hfor|].
  rewrite Nat.sub_0_r in Hamps. cbn [firstn app skipn] in Hamps, Hxs.
  repeat split; trivial.
Qed.

(** ** Pacing across points *)

(** X6: between two restarts of the dwell clock at least one time per
    point passes: when a call to [next] yields a point, the new
    [time_last_point] is the clock at the end of the call and is not
    earlier than the old [time_last_point] plus [time_per_point]; the
    clock has not gone back. *)
Theorem dwell_time_respected g w w1 g1 p t tpp :
  values_step Next g w = (w1, g1, Ok (Yield p)) ->
  time_last_point (na w) = Some t ->
  time_per_point w = (w, Ok tpp) ->
  time_last_point (na w1) = Some (now w1) /\
  t + tpp <= now w1 /\
  now w <= now w1.
Proof.
  intros E Ht Htpp.
  assert (Hr : resume w = (w1, g1, Ok (Yield p))).
  { destruct g; cbn [values_step] in E; trivial. discriminate. }
  apply resume_cases in Hr as [(p' & Hl & _ & Hp) | [_ Hc]];
    [|destruct p as [[? ?] ?]; discriminate].
  inversion Hp; subst p'. destruct p as [[xf y] amp].
  destruct (loop_iteration_yield _ _ _ _ _ Hl)
    as (t' & b & bs & Ht' & Hbw & Hb & Hnow & Htlp & _ & _).
  rewrite Ht in Ht'. inversion Ht'; subst t'.
  apply time_per_point_inv in Htpp as (_ & b' & bs' & Hbw' & _ & ->).
  rewrite Hbw in Hbw'. inversion Hbw'; subst b' bs'.
  split; [exact Htlp|]. rewrite Hnow. split; [apply paced_waits|].
  unfold paced. destruct (Qle_bool 0 _) eqn:Eq; cbn [now]; [|apply Qle_refl].
  apply Qle_bool_iff in Eq.
  rewrite <- (Qplus_0_r (now w)) at 1. now apply Qplus_le_r.
Qed.

(** ** The frequency of the demodulator during a sweep *)

Lemma sweep_run_state axis k : forall i w g,
  g <> GenClosed ->
  sweeping axis i w ->
  (i + k <= List.length axis)%nat ->
  exists w' g' rs,
    run_values (repeat Next k) g w = (w', g', rs) /\
    g' <> GenClosed /\ sweeping axis (i + k) w'.
Proof.
  induction k as [|k IH]; intros i w g Hg Hsw Hi.
  - exists w, g, []. rewrite Nat.add_0_r. auto.
  - cbn [repeat run_values].
    assert (Hres : values_step Next g w = resume w)
      by (destruct g; trivial; contradiction).
    rewrite Hres. unfold resume.
    destruct (nth_error axis i) as [f|] eqn:Ef;
      [|apply nth_error_None in Ef; lia].
    destruct (sweep_step _ _ _ _ Hsw Ef) as (w1 & y & Hl & Hsw1 & _).
    rewrite Hl.
    destruct (IH (S i) w1 GenSuspended ltac:(discriminate) Hsw1 ltac:(lia))
      as (w' & g' & rs & Hrun & Hg' & Hsw').
    rewrite Hrun. eexists _, _, _. split; [reflexivity|].
    split; [exact Hg'|]. now rewrite Nat.add_succ_r.
Qed.

(** X7: during an unstabilized sweep the demodulator runs one point ahead
    of the consumer: once [setup] has returned and [k] points have been
    yielded, [current_freq] is what the hardware makes of axis value [k],
    the point that is being measured and has not been yielded yet. *)
Theorem current_freq_is_next_point o w w1 axis k f :
  setup o w = (w1, Ok tt) ->
  stabilize (na w1) = None ->
  x (na w1) = Some axis ->
  nth_error axis k = Some f ->
  exists w' g' rs,
    run_values (repeat Next k) values w1 = (w', g', rs) /\
    List.length (yields rs) = k /\
    current_freq w' = (w', Ok (quant_frequency f)).
Proof.
  intros H Hs Hx Hk.
  destruct (setup_sweeping _ _ _ _ H Hs Hx) as [Hsw _].
  assert (Hlt : (k < List.length axis)%nat)
    by (apply nth_error_Some; congruence).
  destruct (sweep_run_state axis k 0 w1 values ltac:(discriminate) Hsw
              ltac:(lia)) as (w' & g' & rs & Hrun & _ & Hsw').
  exists w', g', rs. split; [exact Hrun|].
  destruct (sweep_run axis k 0 w1 values w' g' rs ltac:(discriminate) Hsw
              ltac:(lia) Hrun) as (Ha & _).
  split.
  - rewrite <- (length_map point_amplitude), Ha, repeat_length. lia.
  - destruct Hsw' as (_ & _ & _ & _ & _ & _ & _ & Hf).
    unfold current_freq, bind, get_iq, ret. cbn. now rewrite (Hf _ Hk).
Qed.

(** ** Exceptions and the generator *)

(** X8: on an analyzer that has an axis, an exception raised by the body
    of the generator is logged once, the demodulator is then switched off
    and retuned, and the same exception reaches the consumer; an exception
    the consumer throws into the suspended generator is treated alike;
    closing the suspended generator switches off and retunes without
    logging and without raising. *)
Theorem values_reraises (w : World) x0 rest :
  x (na w) = Some (x0 :: rest) ->
  let msg := "NA output turned off due to an exception"%string in
  (forall g e w1,
     g <> GenClosed ->
     loop_iteration w = (w1, Err e) ->
     exists w',
       values_step Next g w = (w', GenClosed, Err e) /\
       iq_trace (iq w')
       = iq_trace (iq w1) ++
         [LogInfo msg; SetAmplitude 0; SetFrequency x0]) /\
  (forall e,
     exists w',
       values_step (Throw e) GenSuspended w = (w', GenClosed, Err e) /\
       iq_trace (iq w')
       = iq_trace (iq w) ++
         [LogInfo msg; SetAmplitude 0; SetFrequency x0]) /\
  (exists w',
     values_step Close GenSuspended w = (w', GenClosed, Ok Closed) /\
     iq_trace (iq w')
     = iq_trace (iq w) ++ [SetAmplitude 0; SetFrequency x0]).
Proof.
  intros Hx msg.
  assert (Hhandle : forall e w1,
            x (na w1) = Some (x0 :: rest) ->
            exists w',
              handle e w1 = (w', GenClosed, Err e) /\
              iq_trace (iq w')
              = iq_trace (iq w1) ++
                [LogInfo msg; SetAmplitude 0; SetFrequency x0]).
  { intros e w1 Hx1. unfold handle, except_clause. run_goal.
    unfold leave_try.
    match goal with
    | |- context [finally_clause ?wl] =>
        destruct (finally_clause_eq wl x0 rest Hx1) as (w' & E & _ & _ & Ht)
    end.
    rewrite E. exists w'. split; [reflexivity|].
    rewrite Ht. cbn. now rewrite <- app_assoc. }
  split; [|split].
  - intros g e w1 Hg Hl.
    assert (Hres : values_step Next g w = resume w)
      by (destruct g; trivial; contradiction).
    rewrite Hres. unfold resume. rewrite Hl.
    apply Hhandle. rewrite (loop_iteration_axis _ _ _ Hl). exact Hx.
  - intros e. cbn [values_step]. now apply Hhandle.
  - cbn [values_step]. unfold leave_try.
    destruct (finally_clause_eq w x0 rest Hx) as (w' & E & _ & _ & Ht).
    rewrite E. exists w'. auto.
Qed.

Lemma untuned_preorder : preorder untuned.
Proof.
  split.
  - intros w H. auto.
  - intros w1 w2 w3 H12 H23 H. destruct (H12 H) as [H2 F2].
    destruct (H23 H2) as [H3 F3]. split; congruence.
Qed.

Ltac untuned_leaf H :=
  inversion H; subst; clear H; unfold untuned; cbn;
  let Hn := fresh "Hn" in
  intros Hn; first [congruence | auto].

Lemma get_current_point_untuned : stable untuned get_current_point.
Proof.
  intros w w' r H. unfold get_current_point in H. run_in H.
  cases_of H. all: untuned_leaf H.
Qed.

Lemma prepare_untuned y : stable untuned (prepare_for_next_point y).
Proof.
  intros w w' r H. unfold prepare_for_next_point in H. run_in H.
  cases_of H. all: untuned_leaf H.
Qed.

Lemma loop_iteration_untuned : stable untuned loop_iteration.
Proof.
  unfold loop_iteration.
  repeat first
    [ apply prepare_untuned
    | apply get_current_point_untuned
    | apply stable_bind; [apply untuned_preorder | | intro]
    | apply stable_if
    | match goal with
      | |- stable _ (match ?e with _ => _ end) => destruct e
      end
    | (let H := fresh "H" in
       intros ? ? ? H; run_in H; cases_of H; untuned_leaf H) ].
Qed.

Lemma finally_clause_untuned w :
  x (na w) = None ->
  exists w',
    finally_clause w = (w', Err (AttributeError "x")) /\
    iq_amplitude (iq w') = quant_amplitude 0 /\
    iq_frequency (iq w') = iq_frequency (iq w).
Proof.
  intros Hx. unfold finally_clause. run_goal. rewrite Hx.
  eexists. split; [reflexivity|]. cbn. auto.
Qed.

(** X9: on an analyzer that has no axis (no [setup] has got as far as
    computing one), whatever finishes a generator whose body has been
    entered -- the end of the loop, an exception, [close] or [throw] --
    the consumer gets [AttributeError] for [x], raised by the [finally]
    clause in place of any pending result; the amplitude of the demodulator
    has been set to 0 all the same, and its frequency is left as it
    was. *)
Theorem values_without_axis a g w w' g' r :
  x (na w) = None ->
  g = GenSuspended \/ (g = GenCreated /\ a = Next) ->
  values_step a g w = (w', g', r) ->
  g' = GenClosed ->
  r = Err (AttributeError "x") /\
  iq_amplitude (iq w') = quant_amplitude 0 /\
  iq_frequency (iq w') = iq_frequency (iq w).
Proof.
  intros Hx Hg H Hc.
  assert (Hleave : forall r0 w1,
            x (na w1) = None ->
            iq_frequency (iq w1) = iq_frequency (iq w) ->
            leave_try r0 w1 = (w', g', r) ->
            r = Err (AttributeError "x") /\
            iq_amplitude (iq w') = quant_amplitude 0 /\
            iq_frequency (iq w') = iq_frequency (iq w)).
  { intros r0 w1 Hx1 Hf1 Hl. unfold leave_try in Hl.
    destruct (finally_clause_untuned w1 Hx1) as (w2 & E & Ha & Hf).
    rewrite E in Hl. inversion Hl; subst. repeat split; congruence. }
  assert (Hhandle : forall e w1,
            x (na w1) = None ->
            iq_frequency (iq w1) = iq_frequency (iq w) ->
            handle e w1 = (w', g', r) ->
            r = Err (AttributeError "x") /\
            iq_amplitude (iq w') = quant_amplitude 0 /\
            iq_frequency (iq w') = iq_frequency (iq w)).
  { intros e w1 Hx1 Hf1 Hh. unfold handle, except_clause in Hh.
    run_in Hh. eapply Hleave; [| |exact Hh]; cbn; assumption. }
  assert (Hresume : resume w = (w', g', r) ->
            r = Err (AttributeError "x") /\
            iq_amplitude (iq w') = quant_amplitude 0 /\
            iq_frequency (iq w') = iq_frequency (iq w)).
  { intros Hr. unfold resume in Hr.
    destruct (loop_iteration w) as [w1 [[p|]|e]] eqn:E.
    - inversion Hr; subst. discriminate.
    - destruct (loop_iteration_untuned _ _ _ E Hx) as [Hx1 Hf1].
      eapply Hleave; eassumption.
    - destruct (loop_iteration_untuned _ _ _ E Hx) as [Hx1 Hf1].
      eapply Hhandle; eassumption. }
  destruct Hg as [-> | [-> ->]]; [destruct a|]; cbn [values_step] in H; auto.
  - eapply Hleave; [exact Hx | reflexivity | exact H].
  - eapply Hhandle; [exact Hx | reflexivity | exact H].
Qed.

(** ** Sleeping *)

Lemma slept_since_preorder : preorder slept_since.
Proof.
  split.
  - intros w. exists []. now rewrite app_nil_r.
  - intros w1 w2 w3 (l1 & E1 & F1) (l2 & E2 & F2).
    exists (l1 ++ l2)%list. rewrite E2, E1, app_assoc. split; trivial.
    apply Forall_app. auto.
Qed.

Lemma slept_since_same w w' : slept w' = slept w -> slept_since w w'.
Proof. intros Hs. exists []. now rewrite app_nil_r. Qed.

Lemma slept_since_sleep w n d t s :
  Qle_bool 0 s = true ->
  slept_since w (mkWorld n d t (slept w ++ [s])).
Proof.
  intros Hd. apply Qle_bool_iff in Hd.
  exists [s]. split; [reflexivity|]. now constructor.
Qed.

Ltac sleep_leaf H :=
  inversion H; subst; clear H; cbn [na iq now slept];
  first [ apply slept_since_same; reflexivity
        | apply slept_since_sleep; assumption ].

Lemma get_current_point_sleeps : stable slept_since get_current_point.
Proof.
  intros w w' r H. unfold get_current_point in H. run_in H.
  cases_of H. all: sleep_leaf H.
Qed.

Lemma prepare_sleeps y : stable slept_since (prepare_for_next_point y).
Proof.
  intros w w' r H. unfold prepare_for_next_point in H. run_in H.
  cases_of H. all: sleep_leaf H.
Qed.

Lemma loop_iteration_sleeps : stable slept_since loop_iteration.
Proof.
  unfold loop_iteration.
  repeat first
    [ apply prepare_sleeps
    | apply get_current_point_sleeps
    | apply stable_bind; [apply slept_since_preorder | | intro]
    | apply stable_if
    | match goal with
      | |- stable _ (match ?e with _ => _ end) => destruct e
      end
    | (let H := fresh "H" in
       intros ? ? ? H; run_in H; cases_of H; sleep_leaf H) ].
Qed.

Lemma finally_clause_sleeps : stable slept_since finally_clause.
Proof.
  intros w w' r H. unfold finally_clause in H. run_in H.
  cases_of H. all: sleep_leaf H.
Qed.

(** X10: no call to [sleep] gets a negative duration: the calls that
    [get_current_point] makes, and the calls made while the consumer
    acts on the generator ([next], [close] or [throw], in any state of
    the generator), all have a duration that is not negative.  This is
    the guard [remaining >= 0] of [get_current_point]. *)
Theorem sleep_never_negative :
  (forall w, slept_since w (fst (get_current_point w))) /\
  (forall a g w, slept_since w (fst (fst (values_step a g w)))).
Proof.
  split.
  - intros w. destruct (get_current_point w) as [w' r] eqn:E.
    exact (get_current_point_sleeps _ _ _ E).
  - intros a g w.
    pose proof slept_since_preorder as [Hrefl Htrans].
    assert (Hleave : forall r0 w1,
              slept_since w w1 ->
              slept_since w (fst (fst (leave_try r0 w1)))).
    { intros r0 w1 H1. unfold leave_try.
      destruct (finally_clause w1) as [w2 [[]|e]] eqn:E; cbn [fst];
        (eapply Htrans; [exact H1 | eapply finally_clause_sleeps; exact E]). }
    assert (Hhandle : forall e w1,
              slept_since w w1 -> slept_since w (fst (fst (handle e w1)))).
    { intros e w1 H1. unfold handle, except_clause. run_goal.
      apply Hleave. eapply Htrans; [exact H1|].
      apply slept_since_same; reflexivity. }
    assert (Hresume : slept_since w (fst (fst (resume w)))).
    { unfold resume.
      destruct (loop_iteration w) as [w1 [[p|]|e]] eqn:E;
        pose proof (loop_iteration_sleeps _ _ _ E) as H1.
      - exact H1.
      - now apply Hleave.
      - now apply Hhandle. }
    destruct g, a; cbn [values_step fst]; auto.
Qed.

(** ** The saved parameters *)

Lemma params_inv w w' p :
  params w = (w', Ok p) ->
  w' = w /\
  exists b bs,
    iq_bandwidth (iq w) = b :: bs /\
    p = mkOptions (Some (start (na w))) (Some (stop (na w)))
                  (Some (points (na w))) (Some (RbwScalar b))
                  (Some (avg (na w))) (Some (_amplitude (na w)))
                  (Some (input (na w))) (Some (output_direct (na w)))
                  (Some (acbandwidth (na w))) None (Some (logscale (na w)))
                  (Some (stabilize (na w))) None.
Proof.
  intros H. unfold params in H. run_in H. cases_of H.
  inversion H; subst; clear H. split; [reflexivity|].
  change (Z.to_nat 0) with 0%nat in *.
  match goal with
  | E : nth_error ?l 0 = Some _ |- _ =>
      destruct l as [|b0 bs0] eqn:El; [discriminate|];
      cbn in E; inversion E; subst; clear E
  end.
  eexists _, _. split; reflexivity.
Qed.

(** X11: [params] reads the state without changing it, and raises
    [IndexError] when the demodulator holds no bandwidth.  Feeding the
    parameters saved from one analyzer to [setup] on another one makes the
    nine plain fields it holds equal to the saved ones, stores as amplitude
    what the hardware makes of the saved amplitude, and asks for the saved
    first bandwidth on both filter stages; [sleeptimes] and [maxamplitude],
    which [params] does not hold, stay those of the second analyzer. *)
Theorem params_restore (w1 w2 : World) :
  (iq_bandwidth (iq w1) = [] -> params w1 = (w1, Err IndexError)) /\
  (forall w1' p,
     params w1 = (w1', Ok p) ->
     w1' = w1 /\
     let w' := fst (setup p w2) in
     start (na w') = start (na w1) /\
     stop (na w') = stop (na w1) /\
     points (na w') = points (na w1) /\
     avg (na w') = avg (na w1) /\
     input (na w') = input (na w1) /\
     output_direct (na w') = output_direct (na w1) /\
     acbandwidth (na w') = acbandwidth (na w1) /\
     logscale (na w') = logscale (na w1) /\
     stabilize (na w') = stabilize (na w1) /\
     _amplitude (na w') = quant_amplitude (_amplitude (na w1)) /\
     sleeptimes (na w') = sleeptimes (na w2) /\
     maxamplitude (na w') = maxamplitude (na w2) /\
     exists b, hd_error (iq_bandwidth (iq w1)) = Some b /\
               iq_bandwidth (iq (fst (merge_options p w2)))
               = [quant_bandwidth b; quant_bandwidth b]).
Proof.
  split.
  - intros Hbw. unfold params. run_goal. rewrite Hbw. reflexivity.
  - intros w1' p Hp.
    apply params_inv in Hp as (-> & b & bs & Hbw & ->).
    split; [reflexivity|].
    destruct w2 as [n d t s]. cbv zeta.
    rewrite setup_eq, merge_options_eq. cbn [fst iq].
    destruct (arm _) as [w' r] eqn:E. cbn [fst].
    pose proof (arm_same_config _ _ _ E) as Hcfg.
    unfold same_config in Hcfg. cbn [na] in Hcfg.
    match type of E with
    | arm (mkWorld (merged_na ?o _) _ _ _) = _ =>
        destruct (merged_na_fields o n)
          as (F1 & F2 & F3 & F4 & F5 & F6 & F7 & F8 & F9 & F10 & F11 & F12)
    end.
    cbn [o_start o_stop o_points o_avg o_amplitude o_input o_output_direct
         o_acbandwidth o_sleeptimes o_logscale o_stabilize o_maxamplitude
         given option_map] in *.
    destruct Hcfg
      as (C1 & C2 & C3 & C4 & C5 & C6 & C7 & C8 & C9 & C10 & C11 & C12).
    cbn [na]. do 12 (split; [congruence|]).
    exists b. rewrite Hbw. split; [reflexivity|].
    rewrite merged_iq_bandwidth. reflexivity.
Qed.

(** ** The pool of IQ modules *)

Lemma list_pop_last {A} (l : list A) (a : A) :
  list_pop (l ++ [a]) = Ok (a, l).
Proof.
  unfold list_pop. rewrite rev_app_distr. cbn. now rewrite rev_involutive.
Qed.

(** X12: the [iq] property takes a module from the pool at most once: the
    first access removes the last module of the pool and keeps it, and
    every later access returns that module without touching the pool; on
    an empty pool the first access raises [IndexError] and changes
    nothing.  Hence the constructor fails with [IndexError] on an empty
    pool, and two analyzers built one after the other from the same pool
    stand on its last and its last but one module. *)
Theorem iq_acquired_once (l : list IQ) (d1 d2 : IQ) (t1 t2 : Q) :
  iq_property (mkHolder None []) = (mkHolder None [], Err IndexError) /\
  iq_property (mkHolder None (l ++ [d1])) = (mkHolder (Some d1) l, Ok d1) /\
  (forall pool, iq_property (mkHolder (Some d1) pool)
                = (mkHolder (Some d1) pool, Ok d1)) /\
  new_NetworkAnalyzer [] t1 = ([], Err IndexError) /\
  (let (pool1, a1) := new_NetworkAnalyzer (l ++ [d2; d1]) t1 in
   let (pool2, a2) := new_NetworkAnalyzer pool1 t2 in
   a1 = Ok (fresh d1 t1) /\ a2 = Ok (fresh d2 t2) /\ pool2 = l).
Proof.
  split; [reflexivity|]. split.
  - unfold iq_property. cbn [_iq rp_iqs]. now rewrite list_pop_last.
  - split; [reflexivity|]. split; [reflexivity|].
    unfold new_NetworkAnalyzer, iq_property. cbn [_iq rp_iqs].
    replace (l ++ [d2; d1])%list with ((l ++ [d2]) ++ [d1])%list
      by (now rewrite <- app_assoc).
    rewrite list_pop_last. cbn [rp_iqs]. rewrite list_pop_last.
    cbn [rp_iqs]. auto.
Qed.

(** ** The linear axis stays inside the bounds *)

Lemma setup_axis_eq o w w' :
  setup o w = (w', Ok tt) ->
  x (na w') = Some (frequency_axis Qplus Qminus Qmult Qdiv Qof_nat log10 pow10
                      (logscale (na w')) (start (na w')) (stop (na w'))
                      (Z.to_nat (points (na w')))).
Proof.
  intros H.
  destruct (setup_ok_inv _ _ _ H) as (wm & Hm & Harm & Hcfg).
  destruct (arm_ok_inv _ _ Harm) as (x0 & b & _ & _ & _ & _ & _ & Hx & _).
  unfold same_config in Hcfg.
  destruct Hcfg as (C1 & C2 & C3 & _ & _ & _ & _ & _ & _ & C10 & _).
  now rewrite C1, C2, C3, C10.
Qed.

Lemma real_linspace_between (a b : R) (n i : nat) (v : R) :
  nth_error (real_linspace a b n) i = Some v ->
  ((a <= b -> a <= v <= b) /\ (b <= a -> b <= v <= a))%R.
Proof.
  intros Hv.
  assert (Hi : (i < n)%nat).
  { rewrite <- (linspace_length Rplus Rminus Rmult Rdiv INR a b n).
    apply nth_error_Some. unfold real_linspace in Hv. congruence. }
  destruct (Nat.le_gt_cases 2 n) as [Hn | Hn].
  - apply (nth_error_nth _ _ 0%R) in Hv.
    rewrite (real_linspace_nth a b n i 0%R Hn Hi) in Hv. subst v.
    assert (Hd : (0 < INR (n - 1))%R) by (apply lt_0_INR; lia).
    assert (H0 : (0 <= INR i)%R) by apply pos_INR.
    assert (H1 : (INR i <= INR (n - 1))%R) by (apply le_INR; lia).
    assert (Hfrac : (0 <= INR i / INR (n - 1) <= 1)%R).
    { split.
      - apply Rmult_le_pos; [exact H0|]. left. now apply Rinv_0_lt_compat.
      - apply (Rmult_le_reg_r (INR (n - 1))); [exact Hd|].
        unfold Rdiv. rewrite Rmult_assoc, Rinv_l, Rmult_1_r, Rmult_1_l;
          [exact H1 | now apply Rgt_not_eq]. }
    replace (INR i * ((b - a) / INR (n - 1)))%R
      with ((INR i / INR (n - 1)) * (b - a))%R
      by (field; now apply Rgt_not_eq).
    set (q := (INR i / INR (n - 1))%R) in *.
    split; intros Hab; split; nra.
  - assert (n = 1%nat) by lia. subst n.
    assert (i = 0%nat) by lia. subst i.
    cbn in Hv. inversion Hv; subst v.
    split; intros Hab; split; lra.
Qed.

(** X14: after a [setup] in linear mode that returned, every value of the
    axis lies between [start] and [stop], in whichever order these are:
    the sweep never asks for a frequency outside the configured span. *)
Theorem linear_axis_within_bounds o w w' axis i v :
  setup o w = (w', Ok tt) ->
  logscale (na w') = false ->
  x (na w') = Some axis ->
  nth_error axis i = Some v ->
  (start (na w') <= stop (na w') -> start (na w') <= v <= stop (na w')) /\
  (stop (na w') <= start (na w') -> stop (na w') <= v <= start (na w')).
Proof.
  intros H Hlin Hx Hv.
  rewrite (setup_axis_eq _ _ _ H), Hlin in Hx.
  inversion Hx; subst axis; clear Hx.
  unfold frequency_axis in Hv.
  apply (map_nth_error Q2R) in Hv.
  rewrite rational_linspace_real in Hv.
  destruct (real_linspace_between _ _ _ _ _ Hv) as [Hup Hdown].
  split; intros Hab.
  - destruct (Hup (Qle_Rle _ _ Hab)). split; now apply Rle_Qle.
  - destruct (Hdown (Qle_Rle _ _ Hab)). split; now apply Rle_Qle.
Qed.

End Coverage.

(** ** Runs of the further properties on the concrete hardware *)

Section CoverageExamples.
#[local] Existing Instance ideal_iq.
#[local] Existing Instance plain_floats.

Lemma sweep_setup_returns :
  setup sweep_options new_analyzer
  = (run_setup sweep_options new_analyzer, Ok tt).
Proof. vm_compute. reflexivity. Qed.

Lemma sweep_axis :
  x (na (run_setup sweep_options new_analyzer))
  = Some [200 # 2; 1100 # 2; 1000].
Proof. vm_compute. reflexivity. Qed.

Lemma sweep_unstabilized :
  stabilize (na (run_setup sweep_options new_analyzer)) = None.
Proof. vm_compute. reflexivity. Qed.

(** The last writes of [setup(start=100, stop=1000, points=3, rbw=100,
    avg=2)], latest first: the frequency of the first point, and
    [125e6 / 100 * 2] averaging cycles. *)
Example setup_last_writes :
  firstn 2 (rev (iq_trace (iq (run_setup sweep_options new_analyzer))))
  = [SetFrequency (200 # 2); SetNaAverages 2500000].
Proof. vm_compute. reflexivity. Qed.

(** With [avg=1e305] the number of averaging cycles, [125e6 / 100 * 1e305],
    is beyond the largest float: [setup] raises [OverflowError]. *)
Lemma setup_outcome_witness :
  snd (setup overflow_options new_analyzer) = Err OverflowError.
Proof.
  destruct (setup_outcome overflow_options new_analyzer)
    as (_ & _ & _ & _ & H).
  destruct (H 100 [100]) as (_ & _ & _ & Hov & _).
  - reflexivity.
  - vm_compute. reflexivity.
  - intros E. vm_compute in E. discriminate.
  - apply Hov.
    + vm_compute. discriminate.
    + vm_compute. discriminate.
    + intros Hle. vm_compute in Hle. apply Hle. reflexivity.
Defined.

Lemma setup_resets_sweep_witness :
  current_point (na (run_setup sweep_options new_analyzer)) = Some 0%Z /\
  (0 < points (na (run_setup sweep_options new_analyzer)))%Z.
Proof.
  destruct (setup_resets_sweep _ _ _ sweep_setup_returns)
    as (_ & _ & Hp & _ & Hc & _).
  split; assumption.
Defined.

Lemma setup_arms_demodulator_witness :
  exists x0, iq_frequency (iq (run_setup sweep_options new_analyzer))
             = quant_frequency x0.
Proof.
  destruct (setup_arms_demodulator _ _ _ sweep_setup_returns)
    as (x0 & rest & b & tr & _ & _ & _ & _ & _ & _ & Hf).
  exists x0. exact Hf.
Defined.

Lemma sweep_visits_axis_witness :
  List.length
    (yields (snd (run_values (repeat Next 4) values
                    (run_setup sweep_options new_analyzer)))) = 3%nat /\
  snd (fst (run_values (repeat Next 4) values
              (run_setup sweep_options new_analyzer))) = GenClosed.
Proof.
  destruct (run_values (repeat Next 4) values
              (run_setup sweep_options new_analyzer))
    as [[w' g'] rs] eqn:E.
  destruct (sweep_visits_axis _ _ _ _ 4 w' g' rs sweep_setup_returns
              sweep_unstabilized sweep_axis E) as (Hlen & _ & _ & Hc).
  split; [exact Hlen | apply Hc; cbn; lia].
Defined.

Lemma curve_acquires_witness :
  exists w' xs ys amps,
    curve 4 sweep_options new_analyzer = (w', Some (Ok (xs, ys, amps))) /\
    xs = map quant_frequency [200 # 2; 1100 # 2; 1000].
Proof.
  destruct (curve_acquires 4 _ _ _ _ sweep_setup_returns sweep_unstabilized
              sweep_axis ltac:(cbn; lia))
    as (w' & xs & ys & amps & Hc & _ & _ & _ & Hxs & _).
  exists w', xs, ys, amps. split; [exact Hc|].
  apply Hxs. vm_compute. reflexivity.
Defined.

Lemma dwell_time_respected_witness :
  0 + 1 / 100 * (2 + (1 # 2))
  <= now (fst (fst (values_step Next values
                      (run_setup sweep_options new_analyzer)))).
Proof.
  destruct (values_step Next values (run_setup sweep_options new_analyzer))
    as [[w1 g1] r] eqn:E.
  assert (Hy : exists p, r = Ok (Yield p)).
  { vm_compute in E. inversion E. eexists. reflexivity. }
  destruct Hy as [p ->].
  assert (Ht : time_last_point (na (run_setup sweep_options new_analyzer))
               = Some 0) by (vm_compute; reflexivity).
  assert (Htpp : time_per_point (run_setup sweep_options new_analyzer)
                 = (run_setup sweep_options new_analyzer,
                    Ok (1 / 100 * (2 + (1 # 2)))))
    by (vm_compute; reflexivity).
  destruct (dwell_time_respected _ _ _ _ _ _ _ E Ht Htpp) as (_ & H & _).
  exact H.
Defined.

Lemma current_freq_is_next_point_witness :
  exists w' g' rs,
    run_values (repeat Next 1) values (run_setup sweep_options new_analyzer)
    = (w', g', rs) /\
    current_freq w' = (w', Ok (1100 # 2)).
Proof.
  destruct (current_freq_is_next_point _ _ _ _ 1 (1100 # 2)
              sweep_setup_returns sweep_unstabilized sweep_axis eq_refl)
    as (w' & g' & rs & Hrun & _ & Hf).
  exists w', g', rs. split; assumption.
Defined.

Lemma values_reraises_witness :
  exists w',
    values_step Close GenSuspended (run_setup sweep_options new_analyzer)
    = (w', GenClosed, Ok Closed).
Proof.
  destruct (values_reraises _ _ _ sweep_axis) as (_ & _ & w' & H & _).
  exists w'. exact H.
Defined.

Lemma values_without_axis_witness :
  snd (values_step Next values new_analyzer) = Err (AttributeError "x").
Proof.
  destruct (values_step Next values new_analyzer) as [[w' g'] r] eqn:E.
  assert (Hg : g' = GenClosed) by (vm_compute in E; now inversion E).
  assert (Hx : x (na new_analyzer) = None) by reflexivity.
  destruct (values_without_axis Next values _ _ _ _ Hx
              (or_intror (conj eq_refl eq_refl)) E Hg) as (Hr & _).
  exact Hr.
Defined.

Lemma prepare_pushes_witness :
  iq_amplitude
    (iq (fst (prepare_for_next_point (1, 0)
                (run_setup sweep_options new_analyzer)))) = 1 # 100.
Proof.
  destruct (prepare_for_next_point (1, 0)
              (run_setup sweep_options new_analyzer)) as [w' r] eqn:E.
  destruct (prepare_pushes _ _ _ _ sweep_unstabilized E) as (Ha & _).
  cbn [fst]. rewrite Ha. vm_compute. reflexivity.
Defined.

Lemma linear_axis_within_bounds_witness :
  100 <= 1100 # 2 <= 1000.
Proof.
  assert (Hlin : logscale (na (run_setup sweep_options new_analyzer)) = false)
    by (vm_compute; reflexivity).
  destruct (linear_axis_within_bounds _ _ _ _ 1 (1100 # 2)
              sweep_setup_returns Hlin sweep_axis eq_refl) as [Hup _].
  assert (Hle : start (na (run_setup sweep_options new_analyzer))
                <= stop (na (run_setup sweep_options new_analyzer)))
    by (vm_compute; discriminate).
  apply Hup in Hle. vm_compute in Hle. exact Hle.
Defined.

Lemma curve_returns_witness :
  exists r, snd (curve 4 sweep_options new_analyzer) = Some r.
Proof.
  apply curve_returns. vm_compute. lia.
Defined.
End CoverageExamples.
